(** * plugin_manager: the single-plugin lifecycle and its reflective call path

    A shallow embedding of [src/plugin.go] (type [Plugin] with [Load],
    [Unload], [Reload], [GetFunc], [Call]) and of the loader stub of
    [src/plugin_stubs.go].

    Conventions of the embedding.
    - A Go call that may panic yields an [exec]: [Returns a] or [Panics r].
    - A Go [error] result is an [option error] ([None] is nil); a Go result
      pair [(T, error)] is a [res T].
    - The methods of a [Plugin] pointer are computations in the monad [Go], which
      threads the record and keeps it when the method panics (the deferred
      [Unlock] runs, the mutations made so far stay).  Each method holds the
      record's lock for its whole body, so one method is one atomic step.
    - [trace] is a ghost field: the sequence of observable steps (status
      writes, loader calls, cache resets, export and callback invocations).
      It is not a field of the Go struct and no code reads it.
    - The calls to [log] are left out; [version], a [uint64] that is only
      stored and compared, is an [N]. *)

From stdpp Require Import base strings list gmap pretty.

Open Scope string_scope.
Open Scope list_scope.
Open Scope nat_scope.

(** ** Results of Go calls *)

Inductive exec (A : Type) : Type :=
| Returns (a : A)
| Panics (reason : string).
Arguments Returns {A} a.
Arguments Panics {A} reason.

#[global] Instance exec_ret : MRet exec := λ A a, Returns a.
#[global] Instance exec_bind : MBind exec := λ A B k c,
  match c with
  | Returns a => k a
  | Panics r => Panics r
  end.

(** [errors.New(msg)]: an error is known by its message. *)
Record error : Type := errors_New { Error : string }.

#[global] Instance error_eq_dec : EqDecision error.
Proof. solve_decision. Defined.

Inductive res (A : Type) : Type :=
| Ok (a : A)
| Fail (e : error).
Arguments Ok {A} a.
Arguments Fail {A} e.

(** ** Status *)

Inductive PluginStatus : Type :=
| PluginStatusNone
| PluginStatusLoading
| PluginStatusLoaded
| PluginStatusReloading
| PluginStatusUnloading
| PluginStatusUnloaded.

#[global] Instance PluginStatus_eq_dec : EqDecision PluginStatus.
Proof. solve_decision. Defined.

(** ** Runtime types and values, as [reflect] shows them

    [Name] is [reflect.Type.Name]: the name of a defined or predeclared
    type, and the empty string for every type literal (slices, pointers,
    maps, function types, [interface{}]). *)

Inductive GoType : Type :=
| Named (pkgPath : string) (name : string)
| Unnamed (repr : string).

Definition Name (t : GoType) : string :=
  match t with
  | Named _ n => n
  | Unnamed _ => ""
  end.

#[global] Instance GoType_eq_dec : EqDecision GoType.
Proof. solve_decision. Defined.

Definition t_int : GoType := Named "" "int".
Definition t_string : GoType := Named "" "string".
Definition t_uint64 : GoType := Named "" "uint64".
Definition t_error : GoType := Named "" "error".
Definition t_errorString : GoType := Unnamed "*errors.errorString".
Definition t_register : GoType := Unnamed "func(string, uint64) error".

Inductive Datum : Type :=
| DInt (z : Z)
| DUint64 (n : N)
| DString (s : string)
| DError (e : error)
| DOpaque (id : N).

(** An [interface{}] value: nil, or a datum with its dynamic type.  The
    host passes plain data; function values are not in this universe. *)
Inductive Value : Type :=
| Nil
| Val (t : GoType) (d : Datum).

(** [reflect.ValueOf(v).Type()]: panics on the zero [reflect.Value], which
    is what [reflect.ValueOf(nil)] is. *)
Definition Type_of (v : Value) : exec GoType :=
  match v with
  | Nil => Panics "reflect: call of reflect.Value.Type on zero Value"
  | Val t _ => Returns t
  end.

(** An [error] stored in an [interface{}] slot. *)
Definition error_value (e : error) : Value := Val t_errorString (DError e).

Definition error_result (e : option error) : Value :=
  match e with
  | Some e => error_value e
  | None => Nil
  end.

(** ** Exported symbols

    The artifact's [Load] export receives the registration callback and may
    call it any number of times, each time continuing with what the callback
    returned: a tree with one kind of node for the call, and leaves for
    returning and for panicking. *)

Inductive LoadExport : Type :=
| Return (e : option error)
| Register (name : string) (version : N) (k : option error → LoadExport)
| Abort (reason : string).

Record FuncType : Type := {
  ft_Name : string;
  ft_In : list GoType;
  ft_Out : list GoType;
}.

(** A symbol is an [any]; what the code does with one depends on its
    dynamic type only through two type assertions and [reflect]. *)
Inductive Symbol : Type :=
| LoadFunc (body : LoadExport)
    (* a func(func(string, uint64) error) error *)
| UnloadFunc (body : exec (option error))
    (* a func() error *)
| Func (t : FuncType) (call : list Value → exec (list Value))
    (* a function of any other type, with what reflect.Value.Call
       does on it *)
| Var (t : GoType).
    (* not a function *)

(** [reflect.TypeOf(f1)] read through [NumIn]/[In]/[NumOut]/[Out]:
    defined on functions only. *)
Definition func_type (s : Symbol) : exec FuncType :=
  match s with
  | LoadFunc _ =>
      Returns {| ft_Name := ""; ft_In := [t_register]; ft_Out := [t_error] |}
  | UnloadFunc _ =>
      Returns {| ft_Name := ""; ft_In := []; ft_Out := [t_error] |}
  | Func t _ => Returns t
  | Var _ => Panics "reflect: NumIn of non-func type"
  end.

(** [rfv.Call(in)] followed by [Interface()] on each result. *)
Definition reflect_Call (s : Symbol) (args : list Value) : exec (list Value) :=
  match s with
  | LoadFunc _ =>
      Panics "reflect: Call using a non-function as type func(string, uint64) error"
  | UnloadFunc body =>
      match args with
      | [] => e ← body; Returns [error_result e]
      | _ :: _ => Panics "reflect: Call with too many input arguments"
      end
  | Func _ call => call args
  | Var _ => Panics "reflect: call of reflect.Value.Call on non-func Value"
  end.

Record PluginType : Type := {
  pluginpath : string;
  err : string;
  syms : gmap string Symbol;
}.

(** ** The function binder: [pluginFuncInfo] and the closure [fn] *)

Record pluginFuncInfo : Type := {
  rfv : Symbol;
  rft : FuncType;
  inTypes : list GoType;
  outTypes : list GoType;
}.

(** [make([]interface{}, n)] *)
Definition make (n : nat) : list Value := replicate n Nil.

(** [len(s)], an [int]. *)
Definition len {A} (s : list A) : Z := Z.of_nat (length s).

(** [out[i] = v] with Go's bounds check; [i] is an [int]. *)
Definition store (out : list Value) (i : Z) (v : Value) : exec (list Value) :=
  if decide (0 ≤ i < len out)%Z
  then Returns (<[Z.to_nat i := v]> out)
  else Panics "runtime error: index out of range".

Definition ArityMismatch : error :=
  errors_New "The number of params is not adapted.".

(** The two [fmt.Sprintf] of the type check. *)
Definition TypeMismatch (info : pluginFuncInfo) (k : nat) (t : GoType) : error :=
  errors_New ("failed to call [" +:+ ft_Name (rft info) +:+ "], " +:+
              "the type of params is not adapted, params[" +:+ pretty k +:+
              "] require type " +:+ Name t).

(** The [for k, param := range params] loop, from index [k] on: [None]
    when every remaining argument passes, the error of the first one that
    does not. *)
Fixpoint check_params (info : pluginFuncInfo) (k : nat) (params : list Value)
  : exec (option error) :=
  match params with
  | [] => Returns None
  | param :: rest =>
      match inTypes info !! k with
      | None => Panics "runtime error: index out of range"
      | Some t =>
          pt ← Type_of param;
          if decide (Name t ≠ Name pt)
          then Returns (Some (TypeMismatch info k t))
          else check_params info (S k) rest
      end
  end.

(** The [for i := 0; i < len(result); i++] loop, from index [i] on. *)
Fixpoint copy_results (out : list Value) (i : nat) (result : list Value)
  : exec (list Value) :=
  match result with
  | [] => Returns out
  | r :: rest => out' ← store out (Z.of_nat i) r; copy_results out' (S i) rest
  end.

(** The closure [f] built by [GetFunc] and kept as [info.fn]. *)
Definition fn (info : pluginFuncInfo) (params : list Value) : exec (list Value) :=
  let out := make (length (outTypes info)) in
  if decide (len params ≠ len (inTypes info)) then
    store out (len out - 1) (error_value ArityMismatch)
  else
    bad ← check_params info 0 params;
    match bad with
    | Some e => store out (len out - 1) (error_value e)
    | None => result ← reflect_Call (rfv info) params; copy_results out 0 result
    end.

(** The binding part of [GetFunc], between the lookup and the cache
    insert. *)
Definition bind_symbol (f1 : Symbol) : exec pluginFuncInfo :=
  t ← func_type f1;
  Returns {| rfv := f1; rft := t; inTypes := ft_In t; outTypes := ft_Out t |}.

(** ** The two collaborators

    [Manager] is the interface behind the field [m]; its implementation is
    not part of the sources.  [GetPluginWithVersion] tells whether the
    [Plugin] pointer it returns is non-nil, which is all [Load] looks at;
    [OnLoaded] receives the record, seen through [Name()] and [Version()]. *)

Class Manager (M : Type) : Type := {
  GetPluginWithVersion : M → string → N → bool;
  OnLoaded : M → string → N → M;
}.

(** The artifact loader: [Open(path)] and [Lookup(symName)] of a [PluginType] pointer,
    the latter on a receiver that may be nil. *)
Class ArtifactLoader : Type := {
  Open : string → res PluginType;
  Lookup : option PluginType → string → exec (res Symbol);
}.

(** The loader of [plugin_stubs.go]. *)
Definition NotImplemented : error := errors_New "plugin: not implemented".

Definition stub_loader : ArtifactLoader := {|
  Open := λ _, Fail NotImplemented;
  Lookup := λ _ _, Returns (Fail NotImplemented);
|}.

(** Modelled from the spec: the loader of the supported platforms is not in
    the sources.  Section 4.1 gives [Open(path)] as a handle or
    [OpenFailed], the same for every call on one path, and
    [Lookup(handle, symbolName)] as the exported symbol or
    [SymbolNotFound]; the symbols are those of the field [syms].  [files]
    says which artifact is at which path. *)
Definition SymbolNotFound (p : PluginType) (symName : string) : error :=
  errors_New ("plugin: symbol " +:+ symName +:+ " not found in plugin " +:+ pluginpath p).

Definition OpenFailed (path : string) : error :=
  errors_New ("plugin.Open(" +:+ path +:+ "): realpath failed").

Definition files_loader (files : gmap string PluginType) : ArtifactLoader := {|
  Open := λ path,
    match files !! path with
    | Some p => Ok p
    | None => Fail (OpenFailed path)
    end;
  Lookup := λ p symName,
    match p with
    | None => Panics "runtime error: invalid memory address or nil pointer dereference"
    | Some p =>
        match syms p !! symName with
        | Some s => Returns (Ok s)
        | None => Returns (Fail (SymbolNotFound p symName))
        end
    end;
|}.

(** Modelled from the spec: a registry that maps [(name, version)] to the
    record loaded under it (section 2), here the set of the pairs it was
    notified of. *)
Definition registry_manager : Manager (list (string * N)) := {|
  GetPluginWithVersion := λ reg name version, bool_decide ((name, version) ∈ reg);
  OnLoaded := λ reg name version, (name, version) :: reg;
|}.

(** ** Observable steps (ghost) *)

Inductive Event : Type :=
| EvSetStatus (s : PluginStatus)
| EvOpen (path : string)
| EvLookup (symName : string)
| EvResetCache
| EvCallLoad
| EvCallUnload
| EvRegister (name : string) (version : N)
| EvOnLoaded (name : string) (version : N).

#[global] Instance Event_eq_dec : EqDecision Event.
Proof. solve_decision. Defined.

Definition DuplicateLoad : error := errors_New "can't double load plugin".
Definition PluginNotLoaded : error := errors_New "plugin not loaded".

Section Lifecycle.
Context {M : Type} `{!Manager M} `{!ArtifactLoader}.

Record Plugin : Type := {
  m : M;
  name : string;
  version : N;
  path : string;
  plugin : option PluginType;
  status : PluginStatus;
  refs : Z;
  cache : gmap string pluginFuncInfo;
  trace : list Event;
}.

Definition NewPlugin (path : string) (m : M) : Plugin := {|
  m := m; name := ""; version := 0%N; path := path; plugin := None;
  status := PluginStatusNone; refs := 0; cache := ∅; trace := [];
|}.

(** Field assignments. *)
Definition set_m (v : M) (p : Plugin) : Plugin :=
  {| m := v; name := name p; version := version p; path := path p;
     plugin := plugin p; status := status p; refs := refs p;
     cache := cache p; trace := trace p |}.
Definition set_name (v : string) (p : Plugin) : Plugin :=
  {| m := m p; name := v; version := version p; path := path p;
     plugin := plugin p; status := status p; refs := refs p;
     cache := cache p; trace := trace p |}.
Definition set_version (v : N) (p : Plugin) : Plugin :=
  {| m := m p; name := name p; version := v; path := path p;
     plugin := plugin p; status := status p; refs := refs p;
     cache := cache p; trace := trace p |}.
Definition set_plugin (v : option PluginType) (p : Plugin) : Plugin :=
  {| m := m p; name := name p; version := version p; path := path p;
     plugin := v; status := status p; refs := refs p;
     cache := cache p; trace := trace p |}.
Definition set_status (v : PluginStatus) (p : Plugin) : Plugin :=
  {| m := m p; name := name p; version := version p; path := path p;
     plugin := plugin p; status := v; refs := refs p;
     cache := cache p; trace := trace p |}.
Definition set_cache (v : gmap string pluginFuncInfo) (p : Plugin) : Plugin :=
  {| m := m p; name := name p; version := version p; path := path p;
     plugin := plugin p; status := status p; refs := refs p;
     cache := v; trace := trace p |}.
Definition set_trace (v : list Event) (p : Plugin) : Plugin :=
  {| m := m p; name := name p; version := version p; path := path p;
     plugin := plugin p; status := status p; refs := refs p;
     cache := cache p; trace := v |}.

(** *** The monad of the methods *)

Definition Go (A : Type) : Type := Plugin → exec A * Plugin.

Definition ret {A} (a : A) : Go A := λ p, (Returns a, p).
Definition panic {A} (reason : string) : Go A := λ p, (Panics reason, p).
Definition bind {A B} (c : Go A) (k : A → Go B) : Go B := λ p,
  match c p with
  | (Returns a, p') => k a p'
  | (Panics r, p') => (Panics r, p')
  end.
Definition get : Go Plugin := λ p, (Returns p, p).
Definition modify (f : Plugin → Plugin) : Go unit := λ p, (Returns tt, f p).
Definition lift {A} (x : exec A) : Go A := λ p, (x, p).
Definition emit (e : Event) : Go unit :=
  modify (λ p, set_trace (trace p ++ [e]) p).

Notation "'let!' x ':=' c 'in' k" := (bind c (λ x, k))
  (at level 10, x binder, c at level 100, k at level 200, only parsing).
Notation "c ';;;' k" := (bind c (λ _, k))
  (at level 100, k at level 200, right associativity, only parsing).

(** *** Status *)

Definition Status : Go PluginStatus := λ p, (Returns (status p), p).

Definition setStatus (s : PluginStatus) : Go unit :=
  modify (set_status s) ;;; emit (EvSetStatus s).

(** *** Load *)

(** The closure [register] of [Load]. *)
Definition register (name' : string) (version' : N) : Go (option error) :=
  emit (EvRegister name' version') ;;;
  modify (set_name name') ;;;
  modify (set_version version') ;;;
  let! p := get in
  if GetPluginWithVersion (m p) name' version' then
    setStatus PluginStatusNone ;;;
    ret (Some DuplicateLoad)
  else
    setStatus PluginStatusLoaded ;;;
    let! p := get in
    modify (set_m (OnLoaded (m p) (name p) (version p))) ;;;
    emit (EvOnLoaded (name p) (version p)) ;;;
    ret None.

(** Running the [Load] export with [register] as its argument. *)
Fixpoint call_Load (f : LoadExport) : Go (option error) :=
  match f with
  | Return e => ret e
  | Register name' version' k =>
      let! e1 := register name' version' in
      call_Load (k e1)
  | Abort reason => panic reason
  end.

(** [f.(func(func(string, uint64) error) error)] *)
Definition assert_LoadFunc (f : Symbol) : Go LoadExport :=
  match f with
  | LoadFunc body => ret body
  | _ => panic "interface conversion: interface {} is not func(func(string, uint64) error) error"
  end.

(** [f.(func() error)] *)
Definition assert_UnloadFunc (f : Symbol) : Go (exec (option error)) :=
  match f with
  | UnloadFunc body => ret body
  | _ => panic "interface conversion: interface {} is not func() error"
  end.

Definition Load : Go (option error) :=
  let! st := Status in
  if decide (st ≠ PluginStatusNone ∧ st ≠ PluginStatusUnloaded) then ret None
  else
    setStatus PluginStatusLoading ;;;
    let! p := get in
    let path' := path p in
    emit (EvOpen path') ;;;
    match Open path' with
    | Fail e =>
        setStatus PluginStatusNone ;;;
        ret (Some e)
    | Ok p1 =>
        modify (set_plugin (Some p1)) ;;;
        emit (EvLookup "Load") ;;;
        let! r := lift (Lookup (Some p1) "Load") in
        match r with
        | Fail e =>
            setStatus PluginStatusNone ;;;
            ret (Some e)
        | Ok f =>
            let! body := assert_LoadFunc f in
            emit EvCallLoad ;;;
            call_Load body
        end
    end.

(** *** Unload *)

Definition Unload : Go (option error) :=
  let! st := Status in
  if decide (st = PluginStatusUnloaded ∨ st = PluginStatusUnloading ∨
             st = PluginStatusNone) then ret None
  else
    modify (set_cache ∅) ;;;
    emit EvResetCache ;;;
    let! p := get in
    emit (EvLookup "Unload") ;;;
    let! r := lift (Lookup (plugin p) "Unload") in
    match r with
    | Fail e => ret (Some e)
    | Ok f =>
        let! body := assert_UnloadFunc f in
        emit EvCallUnload ;;;
        let! err := lift body in
        setStatus PluginStatusUnloaded ;;;
        ret err
    end.

(** *** Reload *)

Definition Reload : Go (option error) :=
  let! err := Unload in
  match err with
  | Some e => ret (Some e)
  | None =>
      let! err := Load in
      match err with
      | Some e => ret (Some e)
      | None =>
          setStatus PluginStatusLoaded ;;;
          ret None
      end
  end.

(** *** GetFunc and Call

    [GetFunc] hands out the closure [info.fn]; here it hands out [info],
    and the closure is [fn info]. *)

Definition GetFunc (fun_ : string) : Go (res pluginFuncInfo) :=
  let! p := get in
  match plugin p with
  | None => ret (Fail PluginNotLoaded)
  | Some h =>
      match cache p !! fun_ with
      | Some info => ret (Ok info)
      | None =>
          emit (EvLookup fun_) ;;;
          let! r := lift (Lookup (Some h) fun_) in
          match r with
          | Fail e => ret (Fail e)
          | Ok f1 =>
              let! info := lift (bind_symbol f1) in
              let! p := get in
              modify (set_cache (<[fun_ := info]> (cache p))) ;;;
              ret (Ok info)
          end
      end
  end.

Definition Call (fun_ : string) (params : list Value) : Go (list Value) :=
  let! r := GetFunc fun_ in
  match r with
  | Fail e => ret [error_value e]
  | Ok info => lift (fn info params)
  end.

End Lifecycle.

(** ** A concrete artifact

    The scenario of the specification: the artifact at [/plugins/echo.so]
    declares name [echo] and version [0x0100] and exports [Echo], from one
    string to [(string, error)].  It also exports [Ping], a [func()] with no
    parameter and no result, and [Note], a [func(string)] with no result. *)

Module Scenario.

Definition echo_path : string := "/plugins/echo.so".

Definition Echo : Symbol :=
  Func {| ft_Name := ""; ft_In := [t_string]; ft_Out := [t_string; t_error] |}
    (λ args,
       match args with
       | [Val (Named "" "string") (DString s)] =>
           Returns [Val t_string (DString s); Nil]
       | _ => Panics "reflect: Call using a value of another type as type string"
       end).

Definition Ping : Symbol :=
  Func {| ft_Name := ""; ft_In := []; ft_Out := [] |}
    (λ args,
       match args with
       | [] => Returns []
       | _ => Panics "reflect: Call with too many input arguments"
       end).

Definition Note : Symbol :=
  Func {| ft_Name := ""; ft_In := [t_string]; ft_Out := [] |}
    (λ args,
       match args with
       | [Val (Named "" "string") (DString s)] => Returns []
       | _ => Panics "reflect: Call using a value of another type as type string"
       end).

Definition echo_Load : LoadExport := Register "echo" 256 (λ e, Return e).

Definition echo_so : PluginType := {|
  pluginpath := echo_path;
  err := "";
  syms := {[ "Load" := LoadFunc echo_Load;
             "Unload" := UnloadFunc (Returns None);
             "Echo" := Echo;
             "Ping" := Ping;
             "Note" := Note ]};
|}.

(** The same artifact without its [Unload] export. *)
Definition sticky_path : string := "/plugins/sticky.so".

Definition sticky_so : PluginType := {|
  pluginpath := sticky_path;
  err := "";
  syms := {[ "Load" := LoadFunc echo_Load; "Echo" := Echo ]};
|}.

(** An artifact whose [Load] export registers and then reports an error
    of its own. *)
Definition grumpy_path : string := "/plugins/grumpy.so".

Definition late_failure : error := errors_New "grumpy: late failure".

Definition grumpy_so : PluginType := {|
  pluginpath := grumpy_path;
  err := "";
  syms := {[ "Load" := LoadFunc (Register "grumpy" 1 (λ _, Return (Some late_failure)));
             "Unload" := UnloadFunc (Returns None) ]};
|}.

(** An artifact whose [Load] export returns nil without calling the
    callback. *)
Definition silent_path : string := "/plugins/silent.so".

Definition silent_so : PluginType := {|
  pluginpath := silent_path;
  err := "";
  syms := {[ "Load" := LoadFunc (Return None);
             "Unload" := UnloadFunc (Returns None) ]};
|}.

Definition loader : ArtifactLoader :=
  files_loader {[ echo_path := echo_so; sticky_path := sticky_so;
                  grumpy_path := grumpy_so; silent_path := silent_so ]}.

Definition manager : Manager (list (string * N)) := registry_manager.

Definition fresh (path : string) (reg : list (string * N))
  : @Plugin (list (string * N)) :=
  NewPlugin path reg.

(** The record after [Load()] on a fresh one. *)
Definition run {A} (c : @Go (list (string * N)) A) (p : Plugin) : Plugin :=
  snd (c p).

Definition loaded : Plugin :=
  run (@Load _ manager loader) (fresh echo_path []).

Definition sticky_loaded : Plugin :=
  run (@Load _ manager loader) (fresh sticky_path []).

Definition silent_loaded : Plugin :=
  run (@Load _ manager loader) (fresh silent_path []).

Definition hi : Value := Val t_string (DString "hi").

Definition one : Value := Val t_int (DInt 1).

(** The closures bound for [Echo], [Ping] and [Note]. *)
Definition bound (f1 : Symbol) : pluginFuncInfo :=
  match bind_symbol f1 with
  | Returns info => info
  | Panics _ => {| rfv := f1; rft := {| ft_Name := ""; ft_In := []; ft_Out := [] |};
                   inTypes := []; outTypes := [] |}
  end.

End Scenario.

(** ** Vocabulary of the statements *)

(** The uniform error result: [n] slots, the error in the last one, nil in
    the others. *)
Definition error_in_last_slot (n : nat) (e : error) (out : list Value) : Prop :=
  length out = n ∧ last out = Some (error_value e) ∧
  ∀ i, S i < n → out !! i = Some Nil.

(** An argument passes the check of [fn] against a declared type when it
    has a runtime type of the same name. *)
Definition type_matches (t : GoType) (v : Value) : Prop :=
  ∃ t' d, v = Val t' d ∧ Name t = Name t'.

(** The statuses among a list of steps. *)
Definition status_writes (l : list Event) : list PluginStatus :=
  omap (λ e, match e with EvSetStatus s => Some s | _ => None end) l.

(** The steps a status write of the code may be: every step that is not a
    write of [Reloading] or [Unloading]. *)
Definition written_by_code (e : Event) : Prop :=
  e ≠ EvSetStatus PluginStatusReloading ∧ e ≠ EvSetStatus PluginStatusUnloading.

(** The steps [Load] may take, and those [Unload] may take. *)
Definition Load_step (e : Event) : Prop :=
  match e with
  | EvSetStatus s =>
      s = PluginStatusLoading ∨ s = PluginStatusNone ∨ s = PluginStatusLoaded
  | EvLookup symName => symName = "Load"
  | EvOpen _ | EvCallLoad | EvRegister _ _ | EvOnLoaded _ _ => True
  | EvResetCache | EvCallUnload => False
  end.

Definition Unload_step (e : Event) : Prop :=
  match e with
  | EvSetStatus s => s = PluginStatusUnloaded
  | EvLookup symName => symName = "Unload"
  | EvResetCache | EvCallUnload => True
  | EvOpen _ | EvCallLoad | EvRegister _ _ | EvOnLoaded _ _ => False
  end.


Section Steps.
Context {M : Type}.

(** The steps a computation adds to the trace. *)
Definition new_events {A} (c : @Go M A) (p : Plugin) : list Event :=
  drop (length (trace p)) (trace (snd (c p))).

(** [c] only appends to the trace, and only steps that satisfy [P]. *)
Definition appends (P : Event → Prop) {A} (c : @Go M A) : Prop :=
  ∀ p, ∃ l, trace (snd (c p)) = trace p ++ l ∧ Forall P l.

(** The representation invariant of the records the methods produce:
    a record that left [None] has an artifact handle. *)
Definition has_handle (p : @Plugin M) : Prop :=
  status p ≠ PluginStatusNone → plugin p ≠ None.

(** The record as [Load] leaves it when it gives up: [Loading] was
    written, then [None]. *)
Definition gave_up (l : list Event) (p : @Plugin M) : Plugin :=
  set_trace (trace p ++ EvSetStatus PluginStatusLoading :: l ++
             [EvSetStatus PluginStatusNone])
    (set_status PluginStatusNone p).

(** The record with which the [Load] export is entered. *)
Definition entering (h : PluginType) (p : @Plugin M) : Plugin :=
  set_trace (trace p ++ [EvSetStatus PluginStatusLoading; EvOpen (path p);
                         EvLookup "Load"; EvCallLoad])
    (set_plugin (Some h) (set_status PluginStatusLoading p)).
End Steps.

(** ** Sequences of method calls *)

Inductive Op : Type :=
| OpLoad
| OpUnload
| OpReload
| OpGetFunc (fun_ : string)
| OpCall (fun_ : string) (params : list Value).

(** The statuses the code writes. *)
Definition written_status (s : PluginStatus) : Prop :=
  s = PluginStatusNone ∨ s = PluginStatusLoading ∨
  s = PluginStatusLoaded ∨ s = PluginStatusUnloaded.

Section Runs.
Context {M : Type} `{!Manager M} `{!ArtifactLoader}.

(** The record after one method call, whether it returned or panicked. *)
Definition run_op (o : Op) (p : @Plugin M) : Plugin :=
  match o with
  | OpLoad => snd (Load p)
  | OpUnload => snd (Unload p)
  | OpReload => snd (Reload p)
  | OpGetFunc fun_ => snd (GetFunc fun_ p)
  | OpCall fun_ params => snd (Call fun_ params p)
  end.

Definition run_ops (ops : list Op) (p : @Plugin M) : Plugin :=
  foldl (λ q o, run_op o q) p ops.

(** [c] keeps the property [I] of the record. *)
Definition preserves (I : @Plugin M → Prop) {A} (c : @Go M A) : Prop :=
  ∀ p, I p → I (snd (c p)).
End Runs.

(** ** The package-level functions of [plugin_manager.go]

    They work on the package variable [defaultManager], a [Manager] that is
    nil until [StartManager] sets it.  The manager behind the interface and
    [NewManager] are not part of the sources: [Service] has what the
    functions call.  A method call on the nil interface panics. *)

Module PluginManager.

Class Service (S Options P : Type) : Type := {
  NewManager : Options → option S * option error;
  IsRunning : S → bool;
  Run : S → option error * S;
  Manager_GetPlugin : S → string → option P * option error;
  Manager_GetPluginWithVersion : S → string → N → option P * option error;
  Manager_GetFunc : S → string → string → res (list Value → exec (list Value));
}.

Definition nil_manager : string :=
  "runtime error: invalid memory address or nil pointer dereference".

Section Facade.
Context {S Options P : Type} `{!Service S Options P}.

(** A computation on [defaultManager]. *)
Definition Global (A : Type) : Type := option S → exec A * option S.

Definition StartManager (options : Options) : Global (option error) :=
  λ defaultManager,
    if match defaultManager with
       | Some s => IsRunning s
       | None => false
       end
    then (Returns None, defaultManager)
    else
      let '(defaultManager, err) := NewManager options in
      match err with
      | Some e => (Returns (Some e), defaultManager)
      | None =>
          match defaultManager with
          | Some s => let '(r, s') := Run s in (Returns r, Some s')
          | None => (Panics nil_manager, defaultManager)
          end
      end.

Definition GetPlugin (name : string) : Global (option P * option error) :=
  λ defaultManager,
    match defaultManager with
    | Some s => (Returns (Manager_GetPlugin s name), defaultManager)
    | None => (Panics nil_manager, defaultManager)
    end.

Definition GetPluginWithVersion (name : string) (version : N)
  : Global (option P * option error) :=
  λ defaultManager,
    match defaultManager with
    | Some s =>
        (Returns (Manager_GetPluginWithVersion s name version), defaultManager)
    | None => (Panics nil_manager, defaultManager)
    end.

Definition GetFunc (module function : string)
  : Global (res (list Value → exec (list Value))) :=
  λ defaultManager,
    match defaultManager with
    | Some s => (Returns (Manager_GetFunc s module function), defaultManager)
    | None => (Panics nil_manager, defaultManager)
    end.

Definition Call (module function : string) (args : list Value)
  : Global (list Value) :=
  λ defaultManager,
    match GetFunc module function defaultManager with
    | (Returns (Fail e), dm) => (Returns [error_value e], dm)
    | (Returns (Ok f), dm) => (f args, dm)
    | (Panics r, dm) => (Panics r, dm)
    end.
End Facade.

(** A manager to run the functions on: it is running once [Run] was
    called, and [NewManager] fails on the option [false]. *)
Definition bad_options : error := errors_New "manager: bad options".

Definition flag_service : Service bool bool unit := {|
  NewManager := λ ok : bool,
    if ok then (Some false, None) else (None, Some bad_options);
  IsRunning := λ s, s;
  Run := λ _, (None, true);
  Manager_GetPlugin := λ _ _, (None, None);
  Manager_GetPluginWithVersion := λ _ _ _, (None, None);
  Manager_GetFunc := λ _ _ _, Fail PluginNotLoaded;
|}.

End PluginManager.

(** ** More artifacts

    [counter.so] exports a variable beside its entry points; the [Load]
    symbol of [oddload.so] and the [Unload] symbol of [oddunload.so] are
    variables, not functions. *)

Module Artifacts.

Definition counter_path : string := "/plugins/counter.so".

Definition counter_so : PluginType := {|
  pluginpath := counter_path;
  err := "";
  syms := {[ "Load" := LoadFunc (Register "counter" 1 (λ e, Return e));
             "Unload" := UnloadFunc (Returns None);
             "Counter" := Var (Unnamed "*int") ]};
|}.

Definition oddload_path : string := "/plugins/oddload.so".

Definition oddload_so : PluginType := {|
  pluginpath := oddload_path;
  err := "";
  syms := {[ "Load" := Var (Unnamed "*int");
             "Unload" := UnloadFunc (Returns None) ]};
|}.

Definition oddunload_path : string := "/plugins/oddunload.so".

Definition oddunload_so : PluginType := {|
  pluginpath := oddunload_path;
  err := "";
  syms := {[ "Load" := LoadFunc (Register "oddunload" 1 (λ e, Return e));
             "Unload" := Var (Unnamed "*int") ]};
|}.

Definition loader : ArtifactLoader :=
  files_loader {[ counter_path := counter_so; oddload_path := oddload_so;
                  oddunload_path := oddunload_so ]}.

Definition counter_loaded : @Plugin (list (string * N)) :=
  snd (@Load _ registry_manager loader (NewPlugin counter_path [])).

Definition oddunload_loaded : @Plugin (list (string * N)) :=
  snd (@Load _ registry_manager loader (NewPlugin oddunload_path [])).

End Artifacts.


(** * The function binder *)

Section Binder.
Implicit Types (info : pluginFuncInfo) (params out result : list Value).

Lemma len_make n : len (make n) = Z.of_nat n.
Proof. unfold len, make. by rewrite length_replicate. Qed.

(** Writing the last slot of a fresh [out] of at least one slot. *)
Lemma store_last n v :
  0 < n →
  store (make n) (len (make n) - 1) v = Returns (replicate (n - 1) Nil ++ [v]).
Proof.
  intros Hn. unfold store. rewrite len_make.
  destruct (decide _) as [_|Hno]; [|lia].
  replace (Z.to_nat (Z.of_nat n - 1)) with (n - 1) by lia.
  unfold make. rewrite insert_replicate_lt by lia.
  by replace (n - S (n - 1)) with 0 by lia.
Qed.

(** Writing the last slot of an [out] without slots: index [-1]. *)
Lemma store_last_empty v :
  store (make 0) (len (make 0) - 1) v = Panics "runtime error: index out of range".
Proof. reflexivity. Qed.

Lemma error_in_last_slot_intro n e :
  0 < n → error_in_last_slot n e (replicate (n - 1) Nil ++ [error_value e]).
Proof.
  intros Hn. repeat split.
  - rewrite length_app, length_replicate. simpl. lia.
  - apply last_snoc.
  - intros i Hi. rewrite lookup_app_l by (rewrite length_replicate; lia).
    apply lookup_replicate_2. lia.
Qed.

(** The check loop stops at the first argument whose type name differs,
    provided the arguments before it carry a type. *)
Lemma check_params_first_mismatch info k pre v post t :
  (∀ i a, pre !! i = Some a →
          ∃ ti, inTypes info !! (k + i) = Some ti ∧ type_matches ti a) →
  inTypes info !! (k + length pre) = Some t →
  (∃ t' d, v = Val t' d ∧ Name t ≠ Name t') →
  check_params info k (pre ++ v :: post) =
    Returns (Some (TypeMismatch info (k + length pre) t)).
Proof.
  revert k. induction pre as [|a pre IH]; intros k Hpre Ht (t' & d & -> & Hne).
  - simpl in *. rewrite Nat.add_0_r in *. rewrite Ht. simpl.
    by rewrite decide_True.
  - simpl in *. destruct (Hpre 0 a eq_refl) as (ti & Hti & ta & da & -> & Hname).
    rewrite Nat.add_0_r in Hti. rewrite Hti. simpl.
    rewrite decide_False by (intros Hbad; by apply Hbad).
    replace (k + S (length pre)) with (S k + length pre) in * by lia.
    apply IH; [|done|by eauto].
    intros i b Hb. replace (S k + i) with (k + S i) by lia. by apply Hpre.
Qed.

(** It passes when every argument matches. *)
Lemma check_params_all_match info k params :
  (∀ i a, params !! i = Some a →
          ∃ ti, inTypes info !! (k + i) = Some ti ∧ type_matches ti a) →
  check_params info k params = Returns None.
Proof.
  revert k. induction params as [|a params IH]; intros k Hall; [done|].
  simpl. destruct (Hall 0 a eq_refl) as (ti & Hti & ta & da & -> & Hname).
  rewrite Nat.add_0_r in Hti. rewrite Hti. simpl.
  rewrite decide_False by (intros Hbad; by apply Hbad).
  apply IH. intros i b Hb. replace (S k + i) with (k + S i) by lia.
  by apply Hall.
Qed.

(** It panics at a nil argument that no mismatch precedes. *)
Lemma check_params_nil info k pre post t :
  (∀ i a, pre !! i = Some a →
          ∃ ti, inTypes info !! (k + i) = Some ti ∧ type_matches ti a) →
  inTypes info !! (k + length pre) = Some t →
  check_params info k (pre ++ Nil :: post) =
    Panics "reflect: call of reflect.Value.Type on zero Value".
Proof.
  revert k. induction pre as [|a pre IH]; intros k Hpre Ht.
  - simpl in *. rewrite Nat.add_0_r in *. by rewrite Ht.
  - simpl in *. destruct (Hpre 0 a eq_refl) as (ti & Hti & ta & da & -> & Hname).
    rewrite Nat.add_0_r in Hti. rewrite Hti. simpl.
    rewrite decide_False by (intros Hbad; by apply Hbad).
    replace (k + S (length pre)) with (S k + length pre) in * by lia.
    apply IH; [|done].
    intros i b Hb. replace (S k + i) with (k + S i) by lia. by apply Hpre.
Qed.

(** Whatever it returns as an error is a [TypeMismatch] for some index
    and declared type. *)
Lemma check_params_error info k params e :
  check_params info k params = Returns (Some e) →
  ∃ j t a, params !! j = Some a ∧ inTypes info !! (k + j) = Some t ∧
           ¬ type_matches t a ∧ e = TypeMismatch info (k + j) t.
Proof.
  revert k. induction params as [|a params IH]; intros k; [done|].
  simpl. destruct (inTypes info !! k) as [t|] eqn:Ht; [|done].
  destruct a as [|ta da]; [done|]. simpl.
  destruct (decide _) as [Hbad|_].
  - intros [= <-]. exists 0, t, (Val ta da).
    rewrite Nat.add_0_r. repeat split; try done.
    intros (t' & d & [= <- <-] & Heq). done.
  - intros (j & t' & b & Hb & Ht' & Hno & ->)%IH.
    exists (S j), t', b. replace (k + S j) with (S k + j) by lia. done.
Qed.

(** The copy loop fills [out] from index [i] on when the results fit. *)
Lemma copy_results_fits out i result :
  i + length result ≤ length out →
  copy_results out i result =
    Returns (take i out ++ result ++ drop (i + length result) out).
Proof.
  revert out i. induction result as [|r result IH]; intros out i Hfit.
  - simpl. by rewrite Nat.add_0_r, take_drop.
  - simpl in *. unfold store at 1, len.
    destruct (decide _) as [_|Hno]; [|lia]. simpl.
    rewrite Nat2Z.id, IH by (rewrite length_insert; lia).
    f_equal. rewrite take_insert_lt by lia.
    rewrite drop_insert_lt by lia.
    assert (is_Some (out !! i)) as [x Hx] by (apply lookup_lt_is_Some; lia).
    rewrite (take_S_r _ _ x) by done.
    rewrite insert_app_r_alt by (rewrite length_take; lia).
    rewrite length_take, Nat.min_l by lia.
    replace (i - i) with 0 by lia. simpl.
    rewrite <- (assoc_L (++)). simpl.
    by replace (S (i + length result)) with (i + S (length result)) by lia.
Qed.

(** It panics when there are more results than slots. *)
Lemma copy_results_overflow out i result :
  i ≤ length out < i + length result →
  copy_results out i result = Panics "runtime error: index out of range".
Proof.
  revert out i. induction result as [|r result IH]; intros out i Hlen.
  - simpl in *. lia.
  - simpl in *. unfold store at 1, len.
    destruct (decide _) as [Hin|Hout]; [|done]. simpl.
    apply IH. rewrite length_insert. lia.
Qed.

(** On arguments that all carry a type the loop decides: it passes and
    every argument matches, or it reports the first one that does not. *)
Lemma check_params_decides info k params :
  k + length params ≤ length (inTypes info) →
  Forall (λ a, a ≠ Nil) params →
  (check_params info k params = Returns None ∧
   ∀ i a, params !! i = Some a →
          ∃ ti, inTypes info !! (k + i) = Some ti ∧ type_matches ti a) ∨
  (∃ j t a, params !! j = Some a ∧ inTypes info !! (k + j) = Some t ∧
            ¬ type_matches t a ∧
            (∀ i b, i < j → params !! i = Some b →
                    ∃ ti, inTypes info !! (k + i) = Some ti ∧ type_matches ti b) ∧
            check_params info k params =
              Returns (Some (TypeMismatch info (k + j) t))).
Proof.
  revert k. induction params as [|a params IH]; intros k Hlen Htyped.
  { left. split; [done|]. intros i a Hi. rewrite lookup_nil in Hi. done. }
  simpl in Hlen. apply Forall_cons in Htyped as [Ha Htyped].
  assert (is_Some (inTypes info !! k)) as [t Ht]
    by (apply lookup_lt_is_Some; lia).
  destruct a as [|ta da]; [done|].
  simpl. rewrite Ht. simpl.
  destruct (decide (Name t ≠ Name ta)) as [Hne|Heq].
  - right. exists 0, t, (Val ta da). rewrite Nat.add_0_r.
    repeat split; try done.
    + intros (t' & d & [= <- <-] & Hn). done.
    + intros i b Hi. lia.
  - assert (Name t = Name ta) as Hname
      by (destruct (decide (Name t = Name ta)); [done|by destruct Heq]).
    destruct (IH (S k)) as [[Hok Hall]|(j & tj & b & Hb & Htj & Hno & Hpre & Hbad)];
      [lia|done| |].
    + left. split; [done|]. intros [|i] b Hb; simpl in Hb.
      * injection Hb as <-. rewrite Nat.add_0_r. exists t. split; [done|].
        by exists ta, da.
      * replace (k + S i) with (S k + i) by lia. by apply Hall.
    + right. exists (S j), tj, b.
      replace (k + S j) with (S k + j) by lia. repeat split; try done.
      intros [|i] c Hi Hc; simpl in Hc.
      * injection Hc as <-. rewrite Nat.add_0_r. exists t. split; [done|].
        by exists ta, da.
      * replace (k + S i) with (S k + i) by lia. apply Hpre; [lia|done].
Qed.

(** *** The three paths of [fn] *)

Lemma fn_arity_mismatch info params :
  0 < length (outTypes info) →
  length params ≠ length (inTypes info) →
  fn info params =
    Returns (replicate (length (outTypes info) - 1) Nil ++ [error_value ArityMismatch]).
Proof.
  intros Hout Hlen. unfold fn. cbv zeta.
  destruct (decide _) as [_|Heq]; [by apply store_last|].
  unfold len in Heq. destruct Heq. lia.
Qed.

Lemma fn_type_mismatch info pre v post t :
  0 < length (outTypes info) →
  length (pre ++ v :: post) = length (inTypes info) →
  (∀ i a, pre !! i = Some a →
          ∃ ti, inTypes info !! i = Some ti ∧ type_matches ti a) →
  inTypes info !! length pre = Some t →
  (∃ t' d, v = Val t' d ∧ Name t ≠ Name t') →
  fn info (pre ++ v :: post) =
    Returns (replicate (length (outTypes info) - 1) Nil ++
             [error_value (TypeMismatch info (length pre) t)]).
Proof.
  intros Hout Hlen Hpre Ht Hv. unfold fn. cbv zeta.
  destruct (decide _) as [Hne|_]; [unfold len in Hne; lia|].
  rewrite (check_params_first_mismatch info 0 pre v post t); try done.
  simpl. by apply store_last.
Qed.

Lemma fn_dispatch info params result :
  length params = length (inTypes info) →
  (∀ i a, params !! i = Some a →
          ∃ ti, inTypes info !! i = Some ti ∧ type_matches ti a) →
  reflect_Call (rfv info) params = Returns result →
  length result ≤ length (outTypes info) →
  fn info params =
    Returns (result ++ replicate (length (outTypes info) - length result) Nil).
Proof.
  intros Hlen Hall Hcall Hfit. unfold fn. cbv zeta.
  destruct (decide _) as [Hne|_]; [unfold len in Hne; lia|].
  rewrite (check_params_all_match info 0 params) by done. simpl.
  rewrite Hcall. simpl.
  rewrite copy_results_fits by (unfold make; rewrite length_replicate; lia).
  simpl. unfold make. by rewrite drop_replicate.
Qed.

(** With at least one result slot and no nil argument, [fn] returns, and
    its result is a [TypeMismatch] in the last slot exactly when some
    argument's type name differs from the declared one. *)
Lemma fn_shape_of_validation_failure info params :
  0 < length (outTypes info) →
  length params ≠ length (inTypes info) ∨
  (∃ pre v post t, params = pre ++ v :: post ∧
     length params = length (inTypes info) ∧
     (∀ i a, pre !! i = Some a →
             ∃ ti, inTypes info !! i = Some ti ∧ type_matches ti a) ∧
     inTypes info !! length pre = Some t ∧
     ∃ t' d, v = Val t' d ∧ Name t ≠ Name t') →
  ∃ out e, fn info params = Returns out ∧
           error_in_last_slot (length (outTypes info)) e out.
Proof.
  intros Hout [Hlen|(pre & v & post & t & -> & Hlen & Hpre & Ht & Hv)].
  - eexists _, _. split; [by apply fn_arity_mismatch|].
    by apply error_in_last_slot_intro.
  - eexists _, _. split; [by eapply fn_type_mismatch|].
    by apply error_in_last_slot_intro.
Qed.

(** With at least one result slot, the right argument count and arguments
    that all carry a type, [fn] returns the [TypeMismatch] of the first
    argument whose type name differs from the declared one when there is
    such an argument, and dispatches the call when there is none: the
    comparison is on [Name] alone. *)
Lemma fn_type_check_exact info params :
  0 < length (outTypes info) →
  length params = length (inTypes info) →
  Forall (λ a, a ≠ Nil) params →
  ((∃ i a t, params !! i = Some a ∧ inTypes info !! i = Some t ∧
             ¬ type_matches t a) →
   ∃ k t a, params !! k = Some a ∧ inTypes info !! k = Some t ∧
            ¬ type_matches t a ∧
            fn info params =
              Returns (replicate (length (outTypes info) - 1) Nil ++
                       [error_value (TypeMismatch info k t)])) ∧
  ((∀ i a, params !! i = Some a →
           ∃ t, inTypes info !! i = Some t ∧ type_matches t a) →
   fn info params =
     (result ← reflect_Call (rfv info) params;
      copy_results (make (length (outTypes info))) 0 result)).
Proof.
  intros Hout Hlen Htyped. split.
  - intros (i & a & t & Hi & Ht & Hno).
    destruct (check_params_decides info 0 params) as
      [[_ Hall]|(j & tj & b & Hb & Htj & Hnob & _ & Hbad)]; [lia|done| |].
    + destruct (Hall i a Hi) as (ti & Hti & Hm). simpl in Hti.
      rewrite Ht in Hti. injection Hti as <-. done.
    + exists j, tj, b. repeat split; try done.
      unfold fn. cbv zeta. rewrite decide_False by (unfold len; lia).
      rewrite Hbad. simpl. by apply store_last.
  - intros Hall. unfold fn. cbv zeta.
    rewrite decide_False by (unfold len; lia).
    by rewrite (check_params_all_match info 0 params).
Qed.

(** C4.  A validation failure on a bound function without result slot
    does not return the uniform error result: with a wrong argument count,
    [out] is empty, the error is stored at index [-1], and the invocation
    panics. *)
Theorem fn_arity_mismatch_without_result_slot info params :
  outTypes info = [] →
  length params ≠ length (inTypes info) →
  fn info params = Panics "runtime error: index out of range".
Proof.
  intros Hout Hlen. unfold fn. cbv zeta. rewrite Hout.
  rewrite decide_True; [done|]. unfold len. lia.
Qed.

(** C6.  With the right argument count and an argument whose type name
    differs from the declared one, a bound function without result slot
    does not fail with [TypeMismatch]: the error is built, stored at index
    [-1] of the empty [out], and the invocation panics. *)
Theorem fn_type_mismatch_without_result_slot info pre v post t :
  outTypes info = [] →
  length (pre ++ v :: post) = length (inTypes info) →
  (∀ i a, pre !! i = Some a →
          ∃ ti, inTypes info !! i = Some ti ∧ type_matches ti a) →
  inTypes info !! length pre = Some t →
  (∃ t' d, v = Val t' d ∧ Name t ≠ Name t') →
  fn info (pre ++ v :: post) = Panics "runtime error: index out of range".
Proof.
  intros Hout Hlen Hpre Ht Hv. unfold fn. cbv zeta.
  rewrite decide_False by (unfold len; lia).
  rewrite (check_params_first_mismatch info 0 pre v post t); try done.
  simpl. by rewrite Hout.
Qed.

(** A nil argument that no mismatch precedes makes the invocation panic,
    whatever the number of result slots. *)
Lemma fn_nil_argument info pre post t :
  length (pre ++ Nil :: post) = length (inTypes info) →
  (∀ i a, pre !! i = Some a →
          ∃ ti, inTypes info !! i = Some ti ∧ type_matches ti a) →
  inTypes info !! length pre = Some t →
  fn info (pre ++ Nil :: post) =
    Panics "reflect: call of reflect.Value.Type on zero Value".
Proof.
  intros Hlen Hpre Ht. unfold fn. cbv zeta.
  rewrite decide_False by (unfold len; lia).
  by rewrite (check_params_nil info 0 pre post t).
Qed.

End Binder.

(** * The lifecycle controller *)

Section LifecycleFacts.
Context {M : Type} `{!Manager M} `{!ArtifactLoader}.
Implicit Types (p : @Plugin M) (e : error) (h : PluginType).

Ltac go_unfold :=
  unfold Load, Unload, Reload, GetFunc, Call, register, setStatus, Status,
    assert_LoadFunc, assert_UnloadFunc, emit, modify, get, lift, bind, ret,
    panic.

Ltac go_record := simpl; rewrite <- ?(assoc_L (++)); reflexivity.

(** *** The paths of the methods, one equation each *)

Lemma Load_noop p :
  status p ≠ PluginStatusNone → status p ≠ PluginStatusUnloaded →
  Load p = (Returns None, p).
Proof. intros H1 H2. go_unfold. simpl. by rewrite decide_True. Qed.

Lemma Load_open_failed p e :
  status p = PluginStatusNone ∨ status p = PluginStatusUnloaded →
  Open (path p) = Fail e →
  Load p = (Returns (Some e), gave_up [EvOpen (path p)] p).
Proof.
  intros Hst Ho. go_unfold. simpl.
  rewrite decide_False by (intros [? ?]; destruct Hst; done).
  rewrite Ho. unfold gave_up. f_equal. go_record.
Qed.

Lemma Load_lookup_failed p h e :
  status p = PluginStatusNone ∨ status p = PluginStatusUnloaded →
  Open (path p) = Ok h →
  Lookup (Some h) "Load" = Returns (Fail e) →
  Load p = (Returns (Some e),
            set_plugin (Some h) (gave_up [EvOpen (path p); EvLookup "Load"] p)).
Proof.
  intros Hst Ho Hl. go_unfold. simpl.
  rewrite decide_False by (intros [? ?]; destruct Hst; done).
  rewrite Ho. simpl. rewrite Hl. unfold gave_up. f_equal. go_record.
Qed.

Lemma Load_export p h body :
  status p = PluginStatusNone ∨ status p = PluginStatusUnloaded →
  Open (path p) = Ok h →
  Lookup (Some h) "Load" = Returns (Ok (LoadFunc body)) →
  Load p = call_Load body (entering h p).
Proof.
  intros Hst Ho Hl. go_unfold. simpl.
  rewrite decide_False by (intros [? ?]; destruct Hst; done).
  rewrite Ho. simpl. rewrite Hl. unfold entering. f_equal. go_record.
Qed.

Lemma register_duplicate nm ver p :
  GetPluginWithVersion (m p) nm ver = true →
  register nm ver p =
    (Returns (Some DuplicateLoad),
     set_trace (trace p ++ [EvRegister nm ver; EvSetStatus PluginStatusNone])
       (set_status PluginStatusNone (set_version ver (set_name nm p)))).
Proof. intros Hdup. go_unfold. simpl. rewrite Hdup. f_equal. go_record. Qed.

Lemma register_new nm ver p :
  GetPluginWithVersion (m p) nm ver = false →
  register nm ver p =
    (Returns None,
     set_trace (trace p ++ [EvRegister nm ver; EvSetStatus PluginStatusLoaded;
                            EvOnLoaded nm ver])
       (set_m (OnLoaded (m p) nm ver)
          (set_status PluginStatusLoaded (set_version ver (set_name nm p))))).
Proof. intros Hnew. go_unfold. simpl. rewrite Hnew. f_equal. go_record. Qed.

Lemma Unload_noop p :
  status p = PluginStatusUnloaded ∨ status p = PluginStatusUnloading ∨
  status p = PluginStatusNone →
  Unload p = (Returns None, p).
Proof. intros Hst. go_unfold. simpl. by rewrite decide_True. Qed.

Lemma Unload_lookup_failed p e :
  status p ≠ PluginStatusUnloaded → status p ≠ PluginStatusUnloading →
  status p ≠ PluginStatusNone →
  Lookup (plugin p) "Unload" = Returns (Fail e) →
  Unload p =
    (Returns (Some e),
     set_trace (trace p ++ [EvResetCache; EvLookup "Unload"]) (set_cache ∅ p)).
Proof.
  intros H1 H2 H3 Hl. go_unfold. simpl.
  rewrite decide_False by (intros [?|[?|?]]; done).
  rewrite Hl. f_equal. go_record.
Qed.

Lemma Unload_export p err :
  status p ≠ PluginStatusUnloaded → status p ≠ PluginStatusUnloading →
  status p ≠ PluginStatusNone →
  Lookup (plugin p) "Unload" = Returns (Ok (UnloadFunc (Returns err))) →
  Unload p =
    (Returns err,
     set_trace (trace p ++ [EvResetCache; EvLookup "Unload"; EvCallUnload;
                            EvSetStatus PluginStatusUnloaded])
       (set_status PluginStatusUnloaded (set_cache ∅ p))).
Proof.
  intros H1 H2 H3 Hl. go_unfold. simpl.
  rewrite decide_False by (intros [?|[?|?]]; done).
  rewrite Hl. f_equal. go_record.
Qed.

Lemma Reload_eq p :
  Reload p =
    match Unload p with
    | (Returns None, p1) =>
        match Load p1 with
        | (Returns None, p2) =>
            (Returns None,
             set_trace (trace p2 ++ [EvSetStatus PluginStatusLoaded])
               (set_status PluginStatusLoaded p2))
        | (Returns (Some e), p2) => (Returns (Some e), p2)
        | (Panics r, p2) => (Panics r, p2)
        end
    | (Returns (Some e), p1) => (Returns (Some e), p1)
    | (Panics r, p1) => (Panics r, p1)
    end.
Proof.
  unfold Reload, bind at 1.
  destruct (Unload p) as [[[e|]|r] p1]; try reflexivity.
  unfold bind at 1.
  destruct (Load p1) as [[[e|]|r] p2]; reflexivity.
Qed.

(** [Unload] keeps the artifact handle and the identity fields, and
    unless it does nothing it leaves the cache empty. *)
Lemma Unload_keeps p :
  plugin (snd (Unload p)) = plugin p ∧ name (snd (Unload p)) = name p ∧
  version (snd (Unload p)) = version p ∧ m (snd (Unload p)) = m p.
Proof.
  go_unfold. simpl. destruct (decide _); [done|].
  destruct (Lookup (plugin p) "Unload") as [[[]|]|]; simpl; try done.
  destruct body; done.
Qed.

Lemma Unload_resets_cache p :
  status p ≠ PluginStatusUnloaded → status p ≠ PluginStatusUnloading →
  status p ≠ PluginStatusNone →
  cache (snd (Unload p)) = ∅.
Proof.
  intros H1 H2 H3. go_unfold. simpl.
  rewrite decide_False by (intros [?|[?|?]]; done).
  destruct (Lookup (plugin p) "Unload") as [[[]|]|]; simpl; try done.
  destruct body; done.
Qed.

(** [GetFunc] on a record with a handle and nothing cached for the name:
    the lookup in the artifact decides. *)
Lemma GetFunc_miss p h fun_ :
  plugin p = Some h → cache p !! fun_ = None →
  fst (GetFunc fun_ p) =
    (r ← Lookup (Some h) fun_;
     match r with
     | Fail e => Returns (Fail e)
     | Ok f1 => info ← bind_symbol f1; Returns (Ok info)
     end).
Proof.
  intros Hh Hc. go_unfold. simpl. rewrite Hh, Hc. simpl.
  destruct (Lookup (Some h) fun_) as [[f1|e]|r]; simpl; try done.
  destruct (bind_symbol f1); done.
Qed.


(** *** Computations only append to the trace *)

Lemma appends_ret P {A} (a : A) : appends P (ret a : @Go M A).
Proof. intros p. exists []. by rewrite app_nil_r. Qed.

Lemma appends_panic P {A} r : appends P (panic r : @Go M A).
Proof. intros p. exists []. by rewrite app_nil_r. Qed.

Lemma appends_lift P {A} (x : exec A) : appends P (lift x : @Go M A).
Proof. intros p. exists []. by rewrite app_nil_r. Qed.

Lemma appends_get P : appends P (get : @Go M Plugin).
Proof. intros p. exists []. by rewrite app_nil_r. Qed.

Lemma appends_Status P : appends P (Status : @Go M PluginStatus).
Proof. intros p. exists []. by rewrite app_nil_r. Qed.

Lemma appends_modify P (f : @Plugin M → @Plugin M) :
  (∀ p, trace (f p) = trace p) → appends P (@modify M f).
Proof. intros Hf p. exists []. simpl. by rewrite Hf, app_nil_r. Qed.

Lemma appends_emit (P : Event → Prop) ev : P ev → appends P (emit ev : @Go M unit).
Proof. intros Hev p. exists [ev]. split; [done|]. by constructor. Qed.

Lemma appends_bind P {A B} (c : @Go M A) (k : A → @Go M B) :
  appends P c → (∀ a, appends P (k a)) → appends P (bind c k).
Proof.
  intros Hc Hk p. unfold bind.
  destruct (Hc p) as (l1 & E1 & F1).
  destruct (c p) as [[a|r] p1]; simpl in *; [|by exists l1].
  destruct (Hk a p1) as (l2 & E2 & F2).
  exists (l1 ++ l2). rewrite E2, E1, (assoc_L (++)). split; [done|].
  by apply Forall_app.
Qed.


Lemma appends_setStatus (P : Event → Prop) s :
  P (EvSetStatus s) → appends P (@setStatus M s).
Proof.
  intros Hs. unfold setStatus.
  apply appends_bind; [by apply appends_modify|intros _].
  by apply appends_emit.
Qed.

(** What a computation added is what [new_events] cuts off the trace. *)
Lemma appends_new_events P {A} (c : @Go M A) p :
  appends P c →
  trace (snd (c p)) = trace p ++ new_events c p ∧ Forall P (new_events c p).
Proof.
  intros Hc. destruct (Hc p) as (l & E & F). unfold new_events.
  by rewrite E, drop_app_length.
Qed.

Ltac appends_step :=
  first
    [ apply appends_ret | apply appends_panic | apply appends_lift
    | apply appends_get | apply appends_Status
    | apply appends_modify; by intros []
    | apply appends_emit; simpl; by auto
    | apply appends_setStatus; simpl; by auto
    | apply appends_bind; [|intros ?]
    | match goal with
      | |- appends _ (if decide ?c then _ else _) => destruct (decide c)
      | |- appends _ (if ?b then _ else _) => destruct b
      | |- appends _ (match ?x with _ => _ end) => destruct x
      end ].

Lemma register_appends nm ver : appends Load_step (register nm ver).
Proof. unfold register. repeat appends_step. Qed.

Lemma call_Load_appends f : appends Load_step (call_Load f).
Proof.
  induction f as [e|nm ver k IH|r]; simpl.
  - apply appends_ret.
  - apply appends_bind; [apply register_appends|done].
  - apply appends_panic.
Qed.

Lemma Load_appends : appends Load_step Load.
Proof.
  unfold Load, assert_LoadFunc. cbv zeta.
  repeat first [apply call_Load_appends | appends_step].
Qed.

Lemma Unload_appends : appends Unload_step (@Unload M _).
Proof. unfold Unload, assert_UnloadFunc. repeat appends_step. Qed.


(** *** The artifact handle *)

Lemma register_plugin nm ver p : plugin (snd (register nm ver p)) = plugin p.
Proof. go_unfold. simpl. by destruct (GetPluginWithVersion _ _ _). Qed.

Lemma call_Load_plugin f p : plugin (snd (call_Load f p)) = plugin p.
Proof.
  revert p. induction f as [e|nm ver k IH|r]; intros p; simpl; try done.
  unfold bind. pose proof (register_plugin nm ver p) as Hr.
  destruct (register nm ver p) as [[e1|r] p1]; simpl in *; [|done].
  by rewrite IH.
Qed.

(** Every method keeps the invariant; [NewPlugin] establishes it. *)
Lemma NewPlugin_has_handle path' (m' : M) : has_handle (NewPlugin path' m').
Proof. by intros []. Qed.

Lemma Load_has_handle p : has_handle p → has_handle (snd (Load p)).
Proof.
  intros Hp. unfold has_handle.
  destruct (decide (status p ≠ PluginStatusNone ∧
                    status p ≠ PluginStatusUnloaded)) as [[H1 H2]|Hst].
  { by rewrite Load_noop. }
  assert (status p = PluginStatusNone ∨ status p = PluginStatusUnloaded)
    as Hst'.
  { destruct (status p); (by left) || (by right) || (destruct Hst; done). }
  destruct (Open (path p)) as [h|e] eqn:Ho.
  2: { by rewrite (Load_open_failed p e). }
  intros _. go_unfold. simpl.
  rewrite decide_False by done. rewrite Ho. simpl.
  destruct (Lookup (Some h) "Load") as [[[]|]|]; simpl; try done.
  by rewrite call_Load_plugin.
Qed.

Lemma Unload_has_handle p : has_handle p → has_handle (snd (Unload p)).
Proof.
  intros Hp. unfold has_handle.
  destruct (Unload_keeps p) as (-> & _).
  destruct (decide (status p = PluginStatusNone)) as [Hn|Hn]; [|auto].
  rewrite Unload_noop; auto.
Qed.

Ltac absent Hin :=
  repeat (apply elem_of_cons in Hin as [Hin|Hin]; [discriminate Hin|]);
  by apply elem_of_nil in Hin.

Lemma new_events_eq {A} (c : @Go M A) p l :
  trace (snd (c p)) = trace p ++ l → new_events c p = l.
Proof. intros E. unfold new_events. by rewrite E, drop_app_length. Qed.

(** The callback writes its arguments into the record before it asks the
    registry. *)
Lemma register_identity nm ver p :
  name (snd (register nm ver p)) = nm ∧ version (snd (register nm ver p)) = ver.
Proof. go_unfold. simpl. by destruct (GetPluginWithVersion _ _ _). Qed.

(** The callback leaves its invocation in the trace, and so does an
    export that begins by calling it. *)
Lemma register_first_event nm ver p :
  ∃ l, trace (snd (register nm ver p)) = trace p ++ EvRegister nm ver :: l.
Proof.
  go_unfold. simpl.
  destruct (GetPluginWithVersion _ _ _); simpl;
    rewrite <- ?(assoc_L (++)); eauto.
Qed.

Lemma call_Load_Register_events nm ver k p :
  ∃ l, trace (snd (call_Load (Register nm ver k) p)) =
       trace p ++ EvRegister nm ver :: l.
Proof.
  simpl. unfold bind.
  destruct (register_first_event nm ver p) as (l1 & E1).
  destruct (register nm ver p) as [[e1|r] p1]; simpl in *; [|by eauto].
  destruct (call_Load_appends (k e1) p1) as (l2 & E2 & _).
  exists (l1 ++ l2). by rewrite E2, E1, <- (assoc_L (++)).
Qed.

(** A [Load] during which the callback was not invoked leaves the
    registry and the identity fields alone, notifies nobody, and when it
    ran the export and returned nil it leaves the status at [Loading]. *)
Lemma Load_without_callback p :
  (∀ nm ver, EvRegister nm ver ∉ new_events Load p) →
  m (snd (Load p)) = m p ∧ name (snd (Load p)) = name p ∧
  version (snd (Load p)) = version p ∧
  (∀ nm ver, EvOnLoaded nm ver ∉ new_events Load p) ∧
  (fst (Load p) = Returns None →
   status p = PluginStatusNone ∨ status p = PluginStatusUnloaded →
   status (snd (Load p)) = PluginStatusLoading).
Proof.
  intros Hno.
  destruct (decide (status p ≠ PluginStatusNone ∧
                    status p ≠ PluginStatusUnloaded)) as [[H1 H2]|Hst].
  { assert (new_events Load p = []) as Hev.
    { apply new_events_eq. rewrite Load_noop by done. simpl.
      by rewrite app_nil_r. }
    rewrite Hev. rewrite Load_noop by done. simpl.
    repeat split; try done.
    - intros nm ver Hin. by apply elem_of_nil in Hin.
    - intros _ [?|?]; done. }
  assert (status p = PluginStatusNone ∨ status p = PluginStatusUnloaded)
    as Hst'.
  { destruct (status p); (by left) || (by right) || (destruct Hst; done). }
  destruct (Open (path p)) as [h|e] eqn:Ho.
  2: { assert (new_events Load p =
               [EvSetStatus PluginStatusLoading; EvOpen (path p);
                EvSetStatus PluginStatusNone]) as Hev.
       { apply new_events_eq. by rewrite (Load_open_failed p e). }
       rewrite Hev. rewrite (Load_open_failed p e) by done. simpl.
       repeat split; try done.
       intros nm ver Hin. absent Hin. }
  revert Hno. unfold new_events. go_unfold. simpl.
  rewrite decide_False by done. rewrite Ho. simpl.
  destruct (Lookup (Some h) "Load") as [[[body| | |]|e]|r]; simpl;
    rewrite <- ?(assoc_L (++)), ?drop_app_length; simpl;
    try (intros _; repeat split; try done; intros nm ver Hin; absent Hin).
  destruct body as [e|nm ver k|r]; simpl;
    rewrite <- ?(assoc_L (++)), ?drop_app_length; simpl;
    try (intros _; repeat split; try done; intros nm' ver' Hin; absent Hin).
  (* the export calls the callback: excluded *)
  intros Hno. exfalso. apply (Hno nm ver).
  match goal with
  | |- context [bind _ _ ?q] =>
      destruct (call_Load_Register_events nm ver k q) as (l & E)
  end.
  simpl in E. rewrite E. simpl.
  rewrite <- !(assoc_L (++)). rewrite drop_app_length. simpl.
  repeat (apply elem_of_cons; first [by left | right]).
Qed.

(** *** The statements of the specification *)

(** C9.  [Load()] on a record in status [None] or [Unloaded]: when opening
    the artifact at the record's path fails, or when resolving the
    artifact's [Load] export fails, [Load()] sets the status back to
    [None] and returns that error. *)
Theorem Load_open_or_lookup_failure p e :
  status p = PluginStatusNone ∨ status p = PluginStatusUnloaded →
  Open (path p) = Fail e ∨
    (∃ h, Open (path p) = Ok h ∧ Lookup (Some h) "Load" = Returns (Fail e)) →
  fst (Load p) = Returns (Some e) ∧
  status (snd (Load p)) = PluginStatusNone ∧
  last (status_writes (new_events Load p)) = Some PluginStatusNone.
Proof.
  intros Hst [Ho|(h & Ho & Hl)].
  - rewrite (new_events_eq Load p
               [EvSetStatus PluginStatusLoading; EvOpen (path p);
                EvSetStatus PluginStatusNone])
      by (by rewrite (Load_open_failed p e)).
    by rewrite (Load_open_failed p e).
  - rewrite (new_events_eq Load p
               [EvSetStatus PluginStatusLoading; EvOpen (path p);
                EvLookup "Load"; EvSetStatus PluginStatusNone])
      by (by rewrite (Load_lookup_failed p h e)).
    by rewrite (Load_lookup_failed p h e).
Qed.

(** C8.  [Load()] whose export invokes the registration callback with a
    pair the registry does not hold, so that the callback sets [Loaded]
    and notifies the registry, and then returns an error of its own:
    [Load()] returns that error and the record stays [Loaded]. *)
Theorem Load_registered_then_export_error p h nm ver k e :
  status p = PluginStatusNone ∨ status p = PluginStatusUnloaded →
  Open (path p) = Ok h →
  Lookup (Some h) "Load" = Returns (Ok (LoadFunc (Register nm ver k))) →
  GetPluginWithVersion (m p) nm ver = false →
  k None = Return (Some e) →
  fst (Load p) = Returns (Some e) ∧
  status (snd (Load p)) = PluginStatusLoaded ∧
  name (snd (Load p)) = nm ∧ version (snd (Load p)) = ver ∧
  m (snd (Load p)) = OnLoaded (m p) nm ver ∧
  new_events Load p =
    [EvSetStatus PluginStatusLoading; EvOpen (path p); EvLookup "Load";
     EvCallLoad; EvRegister nm ver; EvSetStatus PluginStatusLoaded;
     EvOnLoaded nm ver].
Proof.
  intros Hst Ho Hl Hnew Hk.
  assert (Load p =
          (Returns (Some e),
           set_trace (trace p ++
               [EvSetStatus PluginStatusLoading; EvOpen (path p);
                EvLookup "Load"; EvCallLoad; EvRegister nm ver;
                EvSetStatus PluginStatusLoaded; EvOnLoaded nm ver])
             (set_m (OnLoaded (m p) nm ver)
                (set_status PluginStatusLoaded
                   (set_version ver (set_name nm (set_plugin (Some h) p)))))))
    as HL.
  { rewrite (Load_export p h _ Hst Ho Hl). simpl. unfold bind.
    rewrite register_new by done. rewrite Hk. simpl.
    unfold ret. f_equal. go_record. }
  rewrite (new_events_eq Load p _ (f_equal (λ x, trace (snd x)) HL)).
  by rewrite HL.
Qed.

(** C3, as the code has it.  The registration callback invoked with a
    pair the registry already holds fails with [DuplicateLoad], sets the
    status to [None] and does not notify the registry; the record's name
    and version are overwritten with the callback's arguments before the
    registry is asked, whichever way the check goes. *)
Theorem register_duplicate_overwrites_identity p nm ver :
  name (snd (register nm ver p)) = nm ∧
  version (snd (register nm ver p)) = ver ∧
  (GetPluginWithVersion (m p) nm ver = true →
   fst (register nm ver p) = Returns (Some DuplicateLoad) ∧
   status (snd (register nm ver p)) = PluginStatusNone ∧
   m (snd (register nm ver p)) = m p ∧
   new_events (register nm ver) p =
     [EvRegister nm ver; EvSetStatus PluginStatusNone]).
Proof.
  destruct (register_identity nm ver p) as [Hn Hv].
  split; [done|]. split; [done|]. intros Hdup.
  rewrite (new_events_eq (register nm ver) p
             [EvRegister nm ver; EvSetStatus PluginStatusNone])
    by (by rewrite register_duplicate).
  by rewrite register_duplicate.
Qed.


(** C2, as the code has it.  [Unload()] on a record whose status is not
    [None], [Unloaded] or [Unloading] resets the function cache first,
    before it resolves or invokes the artifact's [Unload] export.  When
    the export is resolved and returns, the status is [Unloaded] whatever
    the export returned, and [Unload()] returns that.  When resolving the
    export fails, [Unload()] returns the lookup error and leaves the
    status as it was; the export is not invoked. *)
Theorem Unload_outcomes p :
  status p ≠ PluginStatusNone →
  status p ≠ PluginStatusUnloaded →
  status p ≠ PluginStatusUnloading →
  cache (snd (Unload p)) = ∅ ∧
  (∃ l, new_events Unload p = EvResetCache :: l) ∧
  (∀ err, Lookup (plugin p) "Unload" = Returns (Ok (UnloadFunc (Returns err))) →
     fst (Unload p) = Returns err ∧
     status (snd (Unload p)) = PluginStatusUnloaded ∧
     new_events Unload p =
       [EvResetCache; EvLookup "Unload"; EvCallUnload;
        EvSetStatus PluginStatusUnloaded]) ∧
  (∀ e, Lookup (plugin p) "Unload" = Returns (Fail e) →
     fst (Unload p) = Returns (Some e) ∧
     status (snd (Unload p)) = status p ∧
     new_events Unload p = [EvResetCache; EvLookup "Unload"]).
Proof.
  intros H1 H2 H3. split; [by apply Unload_resets_cache|]. split; [|split].
  - unfold new_events. go_unfold. simpl.
    rewrite decide_False by (intros [?|[?|?]]; done).
    destruct (Lookup (plugin p) "Unload") as [[[| body | |]|]|]; simpl;
      try destruct body; simpl;
      rewrite <- ?(assoc_L (++)), drop_app_length; simpl; eauto.
  - intros err Hl.
    rewrite (new_events_eq Unload p
               [EvResetCache; EvLookup "Unload"; EvCallUnload;
                EvSetStatus PluginStatusUnloaded])
      by (by rewrite (Unload_export p err)).
    by rewrite (Unload_export p err).
  - intros e Hl.
    rewrite (new_events_eq Unload p [EvResetCache; EvLookup "Unload"])
      by (by rewrite (Unload_lookup_failed p e)).
    by rewrite (Unload_lookup_failed p e).
Qed.


Lemma Unload_nil_status p :
  fst (Unload p) = Returns None →
  status p ≠ PluginStatusUnloading →
  status (snd (Unload p)) = PluginStatusNone ∨
  status (snd (Unload p)) = PluginStatusUnloaded.
Proof.
  go_unfold. simpl. destruct (decide _) as [[?|[?|?]]|Hrun]; simpl; auto.
  - done.
  - destruct (Lookup (plugin p) "Unload") as [[[| body | |]|]|]; simpl;
      try done.
    destruct body; simpl; by auto.
Qed.


(** C10.  [Reload()] whose inner [Unload()] and [Load()] both return nil
    while the artifact's [Load] export never invoked the registration
    callback: [Reload()] returns nil and sets the status to [Loaded] at
    its end, although the registry was not notified and is as it was;
    before that last write the status was [Loading] (unless the record
    started in [Unloading], where both inner calls do nothing). *)
Theorem Reload_forces_Loaded_without_registration p :
  fst (Unload p) = Returns None →
  fst (Load (snd (Unload p))) = Returns None →
  (∀ nm ver, EvRegister nm ver ∉ new_events Load (snd (Unload p))) →
  fst (Reload p) = Returns None ∧
  status (snd (Reload p)) = PluginStatusLoaded ∧
  last (new_events Reload p) = Some (EvSetStatus PluginStatusLoaded) ∧
  m (snd (Reload p)) = m p ∧
  (∀ nm ver, EvOnLoaded nm ver ∉ new_events Reload p) ∧
  (status p ≠ PluginStatusUnloading →
   status (snd (Load (snd (Unload p)))) = PluginStatusLoading).
Proof.
  intros HU HL Hno.
  destruct (Load_without_callback _ Hno) as (Hm & _ & _ & HnoOn & Hst).
  destruct (Unload_keeps p) as (_ & _ & _ & HmU).
  destruct (appends_new_events Unload_step Unload p Unload_appends)
    as [EU FU].
  destruct (appends_new_events Load_step Load (snd (Unload p)) Load_appends)
    as [EL _].
  assert (Reload p =
          (Returns None,
           set_trace (trace (snd (Load (snd (Unload p)))) ++
                      [EvSetStatus PluginStatusLoaded])
             (set_status PluginStatusLoaded (snd (Load (snd (Unload p)))))))
    as HR.
  { rewrite Reload_eq.
    destruct (Unload p) as [[[e|]|r] p1]; simpl in *; try done.
    destruct (Load p1) as [[[e|]|r] p2]; simpl in *; done. }
  assert (new_events Reload p =
          new_events Unload p ++ new_events Load (snd (Unload p)) ++
          [EvSetStatus PluginStatusLoaded]) as HE.
  { apply new_events_eq. rewrite HR. simpl.
    by rewrite EL, EU, <- !(assoc_L (++)). }
  rewrite HE, HR. simpl. repeat split.
  - by rewrite (assoc_L (++)), last_snoc.
  - by rewrite Hm.
  - intros nm ver [Hin|[Hin|Hin]%elem_of_app]%elem_of_app.
    + rewrite Forall_forall in FU. by apply FU in Hin.
    + by apply (HnoOn nm ver).
    + apply list_elem_of_singleton in Hin. done.
  - intros Hstart. apply Hst; [done|].
    destruct (Unload_nil_status p HU Hstart); auto.
Qed.

End LifecycleFacts.

(** * The scenario, run *)

Section OnTheScenario.
Import Scenario.
#[local] Existing Instance manager.
#[local] Existing Instance loader.

Ltac differ := let H := fresh in intros H; vm_compute in H; discriminate H.

Ltac not_among H :=
  vm_compute in H;
  repeat (apply elem_of_cons in H as [H|H]; [discriminate H|]);
  by apply elem_of_nil in H.

(** The scenario of the specification up to the unload. *)
Example scenario_Load_Call :
  fst (Load (fresh echo_path [])) = Returns None ∧
  status loaded = PluginStatusLoaded ∧
  name loaded = "echo" ∧ version loaded = 256%N ∧
  fst (Call "Echo" [hi] loaded) = Returns [hi; Nil].
Proof. vm_compute. done. Qed.

(** C5.  A validation failure can panic across the call boundary: a wrong
    argument count or a wrong argument type on a bound function without
    result slot, and a nil argument on any bound function. *)
Theorem validation_failure_panics :
  fst (Call "Ping" [hi] loaded) = Panics "runtime error: index out of range" ∧
  fst (Call "Note" [one] loaded) = Panics "runtime error: index out of range" ∧
  fst (Call "Echo" [Nil] loaded) =
    Panics "reflect: call of reflect.Value.Type on zero Value".
Proof. vm_compute. done. Qed.

Lemma fn_arity_mismatch_without_result_slot_witness :
  fn (bound Ping) [hi] = Panics "runtime error: index out of range".
Proof.
  apply (fn_arity_mismatch_without_result_slot (bound Ping) [hi]).
  - reflexivity.
  - simpl. lia.
Defined.

Lemma fn_type_mismatch_without_result_slot_witness :
  fn (bound Note) ([] ++ one :: []) = Panics "runtime error: index out of range".
Proof.
  apply (fn_type_mismatch_without_result_slot (bound Note) [] one [] t_string).
  - reflexivity.
  - reflexivity.
  - intros i a Hi. rewrite lookup_nil in Hi. discriminate Hi.
  - reflexivity.
  - exists t_int, (DInt 1). split; [reflexivity|]. simpl. discriminate.
Defined.



(** C2, as the specification states it, fails: the artifact of the loaded
    record has no
    [Unload] export; [Unload()] returns the lookup error and the status is
    still [Loaded]. *)
Lemma Unload_lookup_failure_counterexample :
  status sticky_loaded = PluginStatusLoaded ∧
  fst (Unload sticky_loaded) = Returns (Some (SymbolNotFound sticky_so "Unload")) ∧
  status (snd (Unload sticky_loaded)) = PluginStatusLoaded ∧
  status (snd (Unload sticky_loaded)) ≠ PluginStatusUnloaded.
Proof.
  repeat split; try (vm_compute; reflexivity). differ.
Qed.

Lemma Unload_outcomes_witness :
  fst (Unload loaded) = Returns None ∧
  status (snd (Unload loaded)) = PluginStatusUnloaded ∧
  new_events Unload loaded =
    [EvResetCache; EvLookup "Unload"; EvCallUnload;
     EvSetStatus PluginStatusUnloaded].
Proof.
  destruct (Unload_outcomes loaded) as (_ & _ & Hok & _); [differ..|].
  apply (Hok None). vm_compute. reflexivity.
Defined.

(** C3, as the specification states it, fails: a second record for an
    artifact that declares
    [echo], [0x0100], which the registry holds; the callback fails with
    [DuplicateLoad] and the record's name is no longer what it was. *)
Lemma register_duplicate_counterexample :
  GetPluginWithVersion (m (fresh echo_path [("echo", 256%N)])) "echo" 256 = true ∧
  fst (register "echo" 256 (fresh echo_path [("echo", 256%N)])) =
    Returns (Some DuplicateLoad) ∧
  name (fresh echo_path [("echo", 256%N)]) = "" ∧
  name (snd (register "echo" 256 (fresh echo_path [("echo", 256%N)]))) = "echo" ∧
  name (snd (register "echo" 256 (fresh echo_path [("echo", 256%N)]))) ≠
    name (fresh echo_path [("echo", 256%N)]) ∧
  fst (Load (fresh echo_path [("echo", 256%N)])) = Returns (Some DuplicateLoad) ∧
  status (snd (Load (fresh echo_path [("echo", 256%N)]))) = PluginStatusNone ∧
  name (snd (Load (fresh echo_path [("echo", 256%N)]))) = "echo".
Proof.
  repeat split; try (vm_compute; reflexivity). differ.
Qed.

Lemma register_duplicate_overwrites_identity_witness :
  fst (register "echo" 256 (fresh echo_path [("echo", 256%N)])) =
    Returns (Some DuplicateLoad) ∧
  status (snd (register "echo" 256 (fresh echo_path [("echo", 256%N)]))) =
    PluginStatusNone ∧
  m (snd (register "echo" 256 (fresh echo_path [("echo", 256%N)]))) =
    m (fresh echo_path [("echo", 256%N)]) ∧
  new_events (register "echo" 256) (fresh echo_path [("echo", 256%N)]) =
    [EvRegister "echo" 256; EvSetStatus PluginStatusNone].
Proof.
  apply (register_duplicate_overwrites_identity
           (fresh echo_path [("echo", 256%N)]) "echo" 256).
  vm_compute. reflexivity.
Defined.



Lemma Load_registered_then_export_error_witness :
  fst (Load (fresh grumpy_path [])) = Returns (Some late_failure) ∧
  status (snd (Load (fresh grumpy_path []))) = PluginStatusLoaded ∧
  name (snd (Load (fresh grumpy_path []))) = "grumpy" ∧
  version (snd (Load (fresh grumpy_path []))) = 1%N ∧
  m (snd (Load (fresh grumpy_path []))) =
    OnLoaded (m (fresh grumpy_path [])) "grumpy" 1 ∧
  new_events Load (fresh grumpy_path []) =
    [EvSetStatus PluginStatusLoading; EvOpen (path (fresh grumpy_path []));
     EvLookup "Load"; EvCallLoad; EvRegister "grumpy" 1;
     EvSetStatus PluginStatusLoaded; EvOnLoaded "grumpy" 1].
Proof.
  apply (Load_registered_then_export_error (fresh grumpy_path []) grumpy_so
           "grumpy" 1 (λ _, Return (Some late_failure)) late_failure).
  - left. reflexivity.
  - vm_compute. reflexivity.
  - vm_compute. reflexivity.
  - reflexivity.
  - reflexivity.
Defined.

(** On a platform without plugin support every [Load()] fails in [Open]. *)
Lemma Load_open_or_lookup_failure_witness :
  fst (@Load _ manager stub_loader (fresh echo_path [])) =
    Returns (Some NotImplemented) ∧
  status (snd (@Load _ manager stub_loader (fresh echo_path []))) =
    PluginStatusNone ∧
  last (status_writes
          (new_events (@Load _ manager stub_loader) (fresh echo_path []))) =
    Some PluginStatusNone.
Proof.
  apply (@Load_open_or_lookup_failure _ manager stub_loader
           (fresh echo_path []) NotImplemented).
  - left. reflexivity.
  - left. reflexivity.
Defined.

Lemma Reload_forces_Loaded_without_registration_witness :
  fst (Reload silent_loaded) = Returns None ∧
  status (snd (Reload silent_loaded)) = PluginStatusLoaded ∧
  last (new_events Reload silent_loaded) = Some (EvSetStatus PluginStatusLoaded) ∧
  m (snd (Reload silent_loaded)) = m silent_loaded ∧
  (∀ nm ver, EvOnLoaded nm ver ∉ new_events Reload silent_loaded) ∧
  (status silent_loaded ≠ PluginStatusUnloading →
   status (snd (Load (snd (Unload silent_loaded)))) = PluginStatusLoading).
Proof.
  apply (Reload_forces_Loaded_without_registration silent_loaded).
  - vm_compute. reflexivity.
  - vm_compute. reflexivity.
  - intros nm ver Hin. not_among Hin.
Defined.

End OnTheScenario.

(** * More on the function binder *)

Section BinderShape.
Implicit Types (info : pluginFuncInfo) (params out result : list Value).

Lemma store_length out i v out' :
  store out i v = Returns out' → length out' = length out.
Proof.
  unfold store. destruct (decide _); [|done].
  intros [= <-]. apply length_insert.
Qed.

Lemma copy_results_length out i result out' :
  copy_results out i result = Returns out' → length out' = length out.
Proof.
  revert out i. induction result as [|r result IH]; intros out i; simpl.
  - by intros [= <-].
  - destruct (store out (Z.of_nat i) r) as [out1|] eqn:Hs; [|done]. simpl.
    intros Hc%IH. rewrite Hc. by eapply store_length.
Qed.

(** X1.  Whenever the closure [fn] returns, on the failure paths and after
    a dispatched call alike, the list it returns has as many elements as
    the bound function declares results. *)
Theorem fn_result_has_declared_length info params out :
  fn info params = Returns out →
  length out = length (outTypes info).
Proof.
  unfold fn. cbv zeta.
  assert (length (make (length (outTypes info))) = length (outTypes info))
    as Hmake by (unfold make; apply length_replicate).
  destruct (decide _).
  { intros Hs%store_length. by rewrite Hs. }
  destruct (check_params info 0 params) as [[e|]|]; simpl; [| |done].
  { intros Hs%store_length. by rewrite Hs. }
  destruct (reflect_Call (rfv info) params) as [result|]; simpl; [|done].
  intros Hc%copy_results_length. by rewrite Hc.
Qed.

End BinderShape.

(** * More on the lifecycle controller *)

Section MoreLifecycle.
Context {M : Type} `{!Manager M} `{!ArtifactLoader}.
Implicit Types (p : @Plugin M) (e : error) (h : PluginType).

Ltac go_unfold :=
  unfold Load, Unload, Reload, GetFunc, Call, register, setStatus, Status,
    assert_LoadFunc, assert_UnloadFunc, emit, modify, get, lift, bind, ret,
    panic.

Ltac go_record := simpl; rewrite <- ?(assoc_L (++)); reflexivity.

(** *** The cache *)

(** X2.  When [GetFunc] returns a binding, calling it again for the same
    name returns the same binding from the cache and leaves the record as
    it is: no second lookup in the artifact, no second binding. *)
Theorem GetFunc_reuses_binding p fun_ info :
  fst (GetFunc fun_ p) = Returns (Ok info) →
  GetFunc fun_ (snd (GetFunc fun_ p)) = (Returns (Ok info), snd (GetFunc fun_ p)).
Proof.
  go_unfold. simpl.
  destruct (plugin p) as [h|] eqn:Hh; simpl; [|done].
  destruct (cache p !! fun_) as [info0|] eqn:Hc; simpl.
  - intros [= ->]. by rewrite Hh, Hc.
  - destruct (Lookup (Some h) fun_) as [[f1|e]|r]; simpl; try done.
    destruct (bind_symbol f1) as [info1|]; simpl; [|done].
    intros [= ->]. by rewrite Hh, lookup_insert_eq.
Qed.

(** X3.  When [GetFunc] fails, [Call] returns a list of one element, the
    error, whatever the arguments and however many results the function
    was expected to have; the cache is as before. *)
Theorem Call_reports_GetFunc_failure p fun_ params e :
  fst (GetFunc fun_ p) = Returns (Fail e) →
  fst (Call fun_ params p) = Returns [error_value e] ∧
  cache (snd (Call fun_ params p)) = cache p.
Proof.
  unfold Call, bind.
  destruct (GetFunc fun_ p) as [[[info|e']|r] p'] eqn:HG; simpl; try done.
  intros [= ->]. split; [done|].
  revert HG. go_unfold. simpl.
  destruct (plugin p) as [h|]; simpl; [|by intros [= _ <-]].
  destruct (cache p !! fun_); simpl; [done|].
  destruct (Lookup (Some h) fun_) as [[f1|e1]|r]; simpl; try done.
  - destruct (bind_symbol f1); done.
  - by intros [= _ <-].
Qed.

Lemma GetFunc_status_and_handle p fun_ :
  status (snd (GetFunc fun_ p)) = status p ∧
  plugin (snd (GetFunc fun_ p)) = plugin p.
Proof.
  go_unfold. simpl.
  destruct (plugin p) as [h|] eqn:Hh; simpl; [|done].
  destruct (cache p !! fun_) as [info0|]; simpl; [done|].
  destruct (Lookup (Some h) fun_) as [[f1|e1]|r]; simpl; try done.
  destruct (bind_symbol f1) as [info1|]; simpl; done.
Qed.

(** X4.  [GetFunc] only adds to the cache: a binding that is cached stays
    cached, and the status, the identity fields, the handle, the path and
    the registry are not touched. *)
Theorem GetFunc_keeps_bindings p fun_ :
  (∀ g info, cache p !! g = Some info →
             cache (snd (GetFunc fun_ p)) !! g = Some info) ∧
  status (snd (GetFunc fun_ p)) = status p ∧
  name (snd (GetFunc fun_ p)) = name p ∧
  version (snd (GetFunc fun_ p)) = version p ∧
  plugin (snd (GetFunc fun_ p)) = plugin p ∧
  path (snd (GetFunc fun_ p)) = path p ∧
  m (snd (GetFunc fun_ p)) = m p.
Proof.
  go_unfold. simpl.
  destruct (plugin p) as [h|] eqn:Hh; simpl; [|by repeat split].
  destruct (cache p !! fun_) as [info0|] eqn:Hc; simpl; [by repeat split|].
  destruct (Lookup (Some h) fun_) as [[f1|e1]|r]; simpl;
    try (by repeat split).
  destruct (bind_symbol f1) as [info1|]; simpl; [|by repeat split].
  repeat split; try done. intros g info Hg.
  destruct (decide (fun_ = g)) as [->|Hne]; [congruence|].
  by rewrite lookup_insert_ne.
Qed.

(** X5.  [GetFunc] on the name of an exported variable: the lookup
    succeeds, reading the parameter count of a non-function panics, and
    nothing was cached. *)
Theorem GetFunc_of_a_variable_panics p h fun_ t :
  plugin p = Some h →
  cache p !! fun_ = None →
  Lookup (Some h) fun_ = Returns (Ok (Var t)) →
  fst (GetFunc fun_ p) = Panics "reflect: NumIn of non-func type" ∧
  cache (snd (GetFunc fun_ p)) = cache p ∧
  ∀ params, fst (Call fun_ params p) = Panics "reflect: NumIn of non-func type".
Proof.
  intros Hh Hc Hl. unfold Call. go_unfold. simpl. rewrite Hh, Hc. simpl.
  rewrite Hl. simpl. by repeat split.
Qed.

(** *** Properties that every step keeps *)

Section Preserving.
Variable I : @Plugin M → Prop.
Hypothesis I_trace : ∀ l p, I p → I (set_trace l p).
Hypothesis I_status : ∀ s p, written_status s → I p → I (set_status s p).
Hypothesis I_name : ∀ v p, I p → I (set_name v p).
Hypothesis I_version : ∀ v p, I p → I (set_version v p).
Hypothesis I_plugin : ∀ v p, I p → I (set_plugin v p).
Hypothesis I_m : ∀ v p, I p → I (set_m v p).
Hypothesis I_cache : ∀ v p, I p → I (set_cache v p).

Lemma preserves_ret {A} (a : A) : preserves I (ret a : @Go M A).
Proof. by intros p. Qed.

Lemma preserves_panic {A} r : preserves I (panic r : @Go M A).
Proof. by intros p. Qed.

Lemma preserves_lift {A} (x : exec A) : preserves I (lift x : @Go M A).
Proof. by intros p. Qed.

Lemma preserves_get : preserves I (get : @Go M Plugin).
Proof. by intros p. Qed.

Lemma preserves_Status : preserves I (Status : @Go M PluginStatus).
Proof. by intros p. Qed.

Lemma preserves_modify (f : @Plugin M → @Plugin M) :
  (∀ p, I p → I (f p)) → preserves I (modify f).
Proof. intros Hf p. apply Hf. Qed.

Lemma preserves_emit ev : preserves I (emit ev : @Go M unit).
Proof. intros p Hp. by apply I_trace. Qed.

Lemma preserves_bind {A B} (c : @Go M A) (k : A → @Go M B) :
  preserves I c → (∀ a, preserves I (k a)) → preserves I (bind c k).
Proof.
  intros Hc Hk p Hp. unfold bind. specialize (Hc p Hp).
  destruct (c p) as [[a|r] p1]; simpl in *; [|done]. by apply Hk.
Qed.

Lemma preserves_setStatus s :
  written_status s → preserves I (@setStatus M s).
Proof.
  intros Hs. unfold setStatus.
  apply preserves_bind; [|intros _; apply preserves_emit].
  apply preserves_modify. intros p. by apply I_status.
Qed.

Ltac preserves_step :=
  first
    [ apply preserves_ret | apply preserves_panic | apply preserves_lift
    | apply preserves_get | apply preserves_Status | apply preserves_emit
    | apply preserves_setStatus; unfold written_status; by auto
    | apply preserves_modify; intros ?; by auto
    | apply preserves_bind; [|intros ?]
    | match goal with
      | |- preserves _ (if decide ?c then _ else _) => destruct (decide c)
      | |- preserves _ (if ?b then _ else _) => destruct b
      | |- preserves _ (match ?x with _ => _ end) => destruct x
      end ].

Lemma register_preserves nm ver : preserves I (register nm ver).
Proof. unfold register. repeat preserves_step. Qed.

Lemma call_Load_preserves f : preserves I (call_Load f).
Proof.
  induction f as [e|nm ver k IH|r]; simpl.
  - apply preserves_ret.
  - apply preserves_bind; [apply register_preserves|done].
  - apply preserves_panic.
Qed.

Lemma Load_preserves : preserves I Load.
Proof.
  unfold Load, assert_LoadFunc. cbv zeta.
  repeat first [apply call_Load_preserves | preserves_step].
Qed.

Lemma Unload_preserves : preserves I (@Unload M _).
Proof. unfold Unload, assert_UnloadFunc. repeat preserves_step. Qed.

Lemma Reload_preserves : preserves I Reload.
Proof.
  unfold Reload.
  repeat first [apply Unload_preserves | apply Load_preserves | preserves_step].
Qed.

Lemma GetFunc_preserves fun_ : preserves I (@GetFunc M _ fun_).
Proof. unfold GetFunc. repeat preserves_step. Qed.

Lemma Call_preserves fun_ params : preserves I (@Call M _ fun_ params).
Proof.
  unfold Call. repeat first [apply GetFunc_preserves | preserves_step].
Qed.

Lemma run_ops_preserves ops p : I p → I (run_ops ops p).
Proof.
  revert p. induction ops as [|o ops IH]; intros p Hp; [done|].
  simpl. apply IH. destruct o; simpl.
  - by apply Load_preserves.
  - by apply Unload_preserves.
  - by apply Reload_preserves.
  - by apply GetFunc_preserves.
  - by apply Call_preserves.
Qed.
End Preserving.

(** [Load] does not touch the cache. *)
Lemma Load_cache p : cache (snd (Load p)) = cache p.
Proof. by apply (Load_preserves (λ q, cache q = cache p)). Qed.

Lemma Load_status_written p :
  written_status (status p) → written_status (status (snd (Load p))).
Proof. by apply (Load_preserves (λ q, written_status (status q))); auto. Qed.

(** After [Load], the status is not [Unloaded]. *)
Lemma call_Load_status f p :
  status (snd (call_Load f p)) = status p ∨
  status (snd (call_Load f p)) = PluginStatusNone ∨
  status (snd (call_Load f p)) = PluginStatusLoaded.
Proof.
  revert p. induction f as [e|nm ver k IH|r]; intros p; simpl; auto.
  unfold bind.
  assert (status (snd (register nm ver p)) = PluginStatusNone ∨
          status (snd (register nm ver p)) = PluginStatusLoaded) as Hr.
  { go_unfold. simpl. destruct (GetPluginWithVersion _ _ _); simpl; auto. }
  destruct (register nm ver p) as [[e1|r] p1]; simpl in *; [|tauto].
  destruct (IH e1 p1) as [-> | [-> | ->]]; tauto.
Qed.

Lemma Load_not_Unloaded p : status (snd (Load p)) ≠ PluginStatusUnloaded.
Proof.
  destruct (decide (status p ≠ PluginStatusNone ∧
                    status p ≠ PluginStatusUnloaded)) as [[H1 H2]|Hst].
  { by rewrite Load_noop. }
  go_unfold. simpl. rewrite decide_False by done.
  destruct (Open (path p)) as [h|e]; simpl; [|done].
  destruct (Lookup (Some h) "Load") as [[[body| | |]|e]|r]; simpl; try done.
  match goal with
  | |- status (call_Load _ ?q).2 ≠ _ =>
      destruct (call_Load_status body q) as [-> | [-> | ->]]; done
  end.
Qed.

(** X6.  Once [Open] has succeeded, [Load()] leaves the artifact handle in
    the record whatever happens next, also when it then fails and sets the
    status to [None]; it never touches the cache.  So [GetFunc] on a record
    whose [Load()] failed after the open resolves names in the artifact
    instead of failing with [PluginNotLoaded]. *)
Theorem Load_keeps_handle_after_open p h fun_ :
  status p = PluginStatusNone ∨ status p = PluginStatusUnloaded →
  Open (path p) = Ok h →
  plugin (snd (Load p)) = Some h ∧
  cache (snd (Load p)) = cache p ∧
  (cache p !! fun_ = None →
   fst (GetFunc fun_ (snd (Load p))) =
     (r ← Lookup (Some h) fun_;
      match r with
      | Fail e => Returns (Fail e)
      | Ok f1 => info ← bind_symbol f1; Returns (Ok info)
      end)).
Proof.
  intros Hst Ho.
  assert (plugin (snd (Load p)) = Some h) as Hh.
  { go_unfold. simpl.
    rewrite decide_False by (intros [? ?]; destruct Hst; done).
    rewrite Ho. simpl.
    destruct (Lookup (Some h) "Load") as [[[body| | |]|e]|r]; simpl; try done.
    by rewrite call_Load_plugin. }
  split; [done|]. split; [apply Load_cache|].
  intros Hc. apply GetFunc_miss; [done|]. by rewrite Load_cache.
Qed.

(** X7.  [Load()] is idempotent: unless it left the status at [None], a
    second [Load()] right after it returns nil and changes nothing, not
    even the trace (no second open, no second call of the export). *)
Theorem Load_twice p :
  status (snd (Load p)) ≠ PluginStatusNone →
  Load (snd (Load p)) = (Returns None, snd (Load p)).
Proof. intros Hst. apply Load_noop; [done|apply Load_not_Unloaded]. Qed.

(** X8.  [Unload()] is idempotent: after an [Unload()] that returned nil,
    a second one returns nil and changes nothing; the [Unload] export is
    not invoked again. *)
Theorem Unload_twice p :
  fst (Unload p) = Returns None →
  Unload (snd (Unload p)) = (Returns None, snd (Unload p)).
Proof.
  intros HU. apply Unload_noop. revert HU. go_unfold. simpl.
  destruct (decide _) as [Hst|Hrun]; simpl; [done|].
  destruct (Lookup (plugin p) "Unload") as [[[| body | |]|]|]; simpl;
    try done.
  destruct body; simpl; [auto|done].
Qed.

(** X9.  [Reload()] stops at the first error: when its [Unload()] fails,
    it returns that error and [Load()] is not attempted; when its [Load()]
    fails, it returns that error and does not write [Loaded]. *)
Theorem Reload_short_circuits p e :
  (fst (Unload p) = Returns (Some e) →
   Reload p = (Returns (Some e), snd (Unload p))) ∧
  (fst (Unload p) = Returns None →
   fst (Load (snd (Unload p))) = Returns (Some e) →
   Reload p = (Returns (Some e), snd (Load (snd (Unload p))))).
Proof.
  rewrite Reload_eq. split.
  - destruct (Unload p) as [[[e1|]|r] p1]; simpl; try done. by intros [= ->].
  - destruct (Unload p) as [[[e1|]|r] p1]; simpl; try done. intros _.
    destruct (Load p1) as [[[e2|]|r] p2]; simpl; try done. by intros [= ->].
Qed.

(** X10.  [Unload()] tells the registry nothing.  So when the registry
    still holds the pair under which a [Loaded] record was registered, and
    the artifact registers under that pair again and returns what the
    callback returned, [Reload()] fails with [DuplicateLoad] and leaves the
    record in status [None]. *)
Theorem Reload_of_registered_plugin_fails p h nm ver k :
  status p = PluginStatusLoaded →
  Lookup (plugin p) "Unload" = Returns (Ok (UnloadFunc (Returns None))) →
  Open (path p) = Ok h →
  Lookup (Some h) "Load" = Returns (Ok (LoadFunc (Register nm ver k))) →
  GetPluginWithVersion (m p) nm ver = true →
  k (Some DuplicateLoad) = Return (Some DuplicateLoad) →
  fst (Reload p) = Returns (Some DuplicateLoad) ∧
  status (snd (Reload p)) = PluginStatusNone ∧
  m (snd (Reload p)) = m p.
Proof.
  intros Hst HlU Ho HlL Hdup Hk.
  rewrite Reload_eq.
  rewrite (Unload_export p None) by (rewrite ?Hst; done).
  rewrite (Load_export _ h (Register nm ver k)); simpl; auto.
  unfold bind. rewrite register_duplicate by done.
  rewrite Hk. simpl. done.
Qed.

(** X11.  [Load()] whose export registers under a pair the registry does
    not hold and returns [r]: [Load()] returns [r], the record is [Loaded]
    under the declared name and version with the artifact handle set, and
    the registry was notified once. *)
Theorem Load_registers p h nm ver k r :
  status p = PluginStatusNone ∨ status p = PluginStatusUnloaded →
  Open (path p) = Ok h →
  Lookup (Some h) "Load" = Returns (Ok (LoadFunc (Register nm ver k))) →
  GetPluginWithVersion (m p) nm ver = false →
  k None = Return r →
  fst (Load p) = Returns r ∧
  status (snd (Load p)) = PluginStatusLoaded ∧
  name (snd (Load p)) = nm ∧ version (snd (Load p)) = ver ∧
  plugin (snd (Load p)) = Some h ∧
  m (snd (Load p)) = OnLoaded (m p) nm ver.
Proof.
  intros Hst Ho Hl Hnew Hk.
  rewrite (Load_export p h _ Hst Ho Hl). simpl. unfold bind.
  rewrite register_new by done. rewrite Hk. simpl. done.
Qed.

(** X12.  [Load()] whose export returns [r] without calling the callback:
    [Load()] returns [r], also when [r] is nil, and the record stays in
    status [Loading] with its identity fields and the registry as they
    were.  A further [Load()] then does nothing. *)
Theorem Load_without_callback_stays_Loading p h r :
  status p = PluginStatusNone ∨ status p = PluginStatusUnloaded →
  Open (path p) = Ok h →
  Lookup (Some h) "Load" = Returns (Ok (LoadFunc (Return r))) →
  fst (Load p) = Returns r ∧
  status (snd (Load p)) = PluginStatusLoading ∧
  name (snd (Load p)) = name p ∧ version (snd (Load p)) = version p ∧
  m (snd (Load p)) = m p ∧
  Load (snd (Load p)) = (Returns None, snd (Load p)).
Proof.
  intros Hst Ho Hl.
  rewrite (Load_export p h _ Hst Ho Hl). simpl.
  by repeat split.
Qed.

(** X13.  [Load()] on an artifact whose [Load] symbol is not of the type
    the code asserts: the assertion panics, and the record is left in
    status [Loading] with the handle set, where a further [Load()] does
    nothing and returns nil. *)
Theorem Load_export_of_another_type_panics p h f :
  status p = PluginStatusNone ∨ status p = PluginStatusUnloaded →
  Open (path p) = Ok h →
  Lookup (Some h) "Load" = Returns (Ok f) →
  (∀ body, f ≠ LoadFunc body) →
  (∃ reason, fst (Load p) = Panics reason) ∧
  status (snd (Load p)) = PluginStatusLoading ∧
  plugin (snd (Load p)) = Some h ∧
  Load (snd (Load p)) = (Returns None, snd (Load p)).
Proof.
  intros Hst Ho Hl Hf.
  assert (∃ reason q, Load p = (Panics reason, q) ∧
            status q = PluginStatusLoading ∧ plugin q = Some h)
    as (reason & q & -> & Hq & Hh).
  { go_unfold. simpl.
    rewrite decide_False by (intros [? ?]; destruct Hst; done).
    rewrite Ho. simpl. rewrite Hl.
    destruct f as [body| | |]; [by destruct (Hf body)|..]; simpl; eauto. }
  simpl. repeat split; eauto. apply Load_noop; by rewrite Hq.
Qed.

(** X14.  [Unload()] on an artifact whose [Unload] symbol is not of the
    type the code asserts, or whose [Unload] export panics: [Unload()]
    panics after it has emptied the cache, and the status is what it
    was. *)
Theorem Unload_export_panics p f :
  status p ≠ PluginStatusNone →
  status p ≠ PluginStatusUnloaded →
  status p ≠ PluginStatusUnloading →
  Lookup (plugin p) "Unload" = Returns (Ok f) →
  (∀ err, f ≠ UnloadFunc (Returns err)) →
  (∃ reason, fst (Unload p) = Panics reason) ∧
  status (snd (Unload p)) = status p ∧
  cache (snd (Unload p)) = ∅.
Proof.
  intros H1 H2 H3 Hl Hf. go_unfold. simpl.
  rewrite decide_False by (intros [?|[?|?]]; done).
  rewrite Hl.
  destruct f as [|[err|r]| |]; simpl; eauto.
  by destruct (Hf err).
Qed.

(** *** What holds after any sequence of calls *)

Lemma Load_returns_nil_has_handle p :
  has_handle p → fst (Load p) = Returns None → plugin (snd (Load p)) ≠ None.
Proof.
  intros Hp.
  destruct (decide (status p ≠ PluginStatusNone ∧
                    status p ≠ PluginStatusUnloaded)) as [[H1 H2]|Hst].
  { rewrite Load_noop by done. simpl. auto. }
  go_unfold. simpl. rewrite decide_False by done.
  destruct (Open (path p)) as [h|e]; simpl; [|done].
  destruct (Lookup (Some h) "Load") as [[[body| | |]|e]|r]; simpl; try done.
  by rewrite call_Load_plugin.
Qed.

Lemma Reload_has_handle p : has_handle p → has_handle (snd (Reload p)).
Proof.
  intros Hp. rewrite Reload_eq.
  pose proof (Unload_has_handle p Hp) as H1.
  destruct (Unload p) as [[[e|]|r] p1]; simpl in *; try done.
  pose proof (Load_has_handle p1 H1) as H2.
  pose proof (Load_returns_nil_has_handle p1 H1) as H3.
  destruct (Load p1) as [[[e|]|r] p2]; simpl in *; try done.
  intros _. by apply H3.
Qed.

Lemma GetFunc_has_handle p fun_ :
  has_handle p → has_handle (snd (GetFunc fun_ p)).
Proof.
  destruct (GetFunc_status_and_handle p fun_) as (Hs & Hh).
  unfold has_handle. by rewrite Hs, Hh.
Qed.

Lemma Call_has_handle p fun_ params :
  has_handle p → has_handle (snd (Call fun_ params p)).
Proof.
  intros Hp. unfold Call, bind.
  pose proof (GetFunc_has_handle p fun_ Hp) as HG.
  destruct (GetFunc fun_ p) as [[[info|e]|r] p1]; simpl in *; done.
Qed.

(** X15.  No method ever assigns the path or the reference count: after
    any sequence of [Load], [Unload], [Reload], [GetFunc] and [Call],
    returning or panicking, both are what they were. *)
Theorem path_and_refs_never_change ops p :
  path (run_ops ops p) = path p ∧ refs (run_ops ops p) = refs p.
Proof.
  by apply (run_ops_preserves (λ q, path q = path p ∧ refs q = refs p)).
Qed.

(** X16.  A record made by [NewPlugin] and used through its methods only,
    in any order and number, returning or panicking, is never in status
    [Reloading] or [Unloading], and it has an artifact handle whenever its
    status is not [None]. *)
Theorem reachable_records ops path' (m' : M) :
  written_status (status (run_ops ops (NewPlugin path' m'))) ∧
  has_handle (run_ops ops (NewPlugin path' m')).
Proof.
  split.
  - apply (run_ops_preserves (λ q, written_status (status q))); try done.
    by left.
  - generalize (NewPlugin_has_handle path' m').
    generalize (NewPlugin path' m'). intros p.
    revert p. induction ops as [|o ops IH]; intros p Hp; [done|].
    simpl. apply IH. destruct o; simpl.
    + by apply Load_has_handle.
    + by apply Unload_has_handle.
    + by apply Reload_has_handle.
    + by apply GetFunc_has_handle.
    + by apply Call_has_handle.
Qed.

End MoreLifecycle.

(** * On a platform without plugin support *)

Section StubLoader.
Context {M : Type} `{!Manager M}.

#[local] Existing Instance stub_loader.



End StubLoader.

(** * The package-level functions *)

Section Facade.
Context {S Options P : Type} `{!PluginManager.Service S Options P}.

(** X18.  [StartManager] is idempotent once a manager runs: when
    [NewManager] succeeds and the manager reports that it is running after
    [Run], [StartManager] returns what [Run] returned, and a second
    [StartManager], with whatever options, returns nil and keeps that
    manager: no new manager is made and [Run] is not called again. *)
Theorem StartManager_twice (options options' : Options) dm (s : S) :
  dm = None ∨ (∃ s0, dm = Some s0 ∧ PluginManager.IsRunning s0 = false) →
  PluginManager.NewManager options = (Some s, None) →
  PluginManager.IsRunning (snd (PluginManager.Run s)) = true →
  PluginManager.StartManager options dm =
    (Returns (fst (PluginManager.Run s)), Some (snd (PluginManager.Run s))) ∧
  PluginManager.StartManager options'
      (snd (PluginManager.StartManager options dm)) =
    (Returns None, snd (PluginManager.StartManager options dm)).
Proof.
  intros Hdm Hnew Hrun.
  assert (PluginManager.StartManager options dm =
          (Returns (fst (PluginManager.Run s)),
           Some (snd (PluginManager.Run s)))) as ->.
  { unfold PluginManager.StartManager.
    destruct Hdm as [->|(s0 & -> & ->)]; rewrite Hnew;
      by destruct (PluginManager.Run s). }
  split; [done|]. simpl. unfold PluginManager.StartManager. by rewrite Hrun.
Qed.

(** X19.  [StartManager] assigns what [NewManager] returned to
    [defaultManager] before it looks at the error.  When [NewManager]
    fails and returns no manager, the error is returned, [Run] is not
    called, and the manager there was, if any, is gone: the package's
    [GetPlugin], [GetFunc] and [Call] then panic on the nil interface. *)
Theorem failed_StartManager_drops_the_manager
    (options : Options) dm e (name' module function : string)
    (args : list Value) :
  dm = None ∨ (∃ s0, dm = Some s0 ∧ PluginManager.IsRunning s0 = false) →
  PluginManager.NewManager options = (None, Some e) →
  PluginManager.StartManager options dm = (Returns (Some e), None) ∧
  fst (PluginManager.GetPlugin name'
         (snd (PluginManager.StartManager options dm))) =
    Panics PluginManager.nil_manager ∧
  fst (PluginManager.GetFunc module function
         (snd (PluginManager.StartManager options dm))) =
    Panics PluginManager.nil_manager ∧
  fst (PluginManager.Call module function args
         (snd (PluginManager.StartManager options dm))) =
    Panics PluginManager.nil_manager.
Proof.
  intros Hdm Hnew.
  assert (PluginManager.StartManager options dm = (Returns (Some e), None))
    as ->.
  { unfold PluginManager.StartManager.
    destruct Hdm as [->|(s0 & -> & ->)]; by rewrite Hnew. }
  done.
Qed.

End Facade.

(** * The properties above on concrete artifacts *)

Section OnTheArtifacts.
Import Scenario.
#[local] Existing Instance manager.
#[local] Existing Instance loader.

Ltac differ := let H := fresh in intros H; vm_compute in H; discriminate H.

Lemma fn_result_has_declared_length_witness :
  length [hi; Nil] = length (outTypes (bound Echo)).
Proof.
  apply (fn_result_has_declared_length (bound Echo) [hi] [hi; Nil]).
  vm_compute. reflexivity.
Defined.

Lemma GetFunc_reuses_binding_witness :
  GetFunc "Echo" (snd (GetFunc "Echo" loaded)) =
    (Returns (Ok (bound Echo)), snd (GetFunc "Echo" loaded)).
Proof.
  apply (GetFunc_reuses_binding loaded "Echo" (bound Echo)).
  vm_compute. reflexivity.
Defined.

Lemma Call_reports_GetFunc_failure_witness :
  fst (Call "Nope" [hi; hi] loaded) =
    Returns [error_value (SymbolNotFound echo_so "Nope")] ∧
  cache (snd (Call "Nope" [hi; hi] loaded)) = cache loaded.
Proof.
  apply (Call_reports_GetFunc_failure loaded "Nope" [hi; hi]
           (SymbolNotFound echo_so "Nope")).
  vm_compute. reflexivity.
Defined.

(** A second record for [echo]: its [Load()] fails with [DuplicateLoad]
    and leaves status [None], and [Echo] can be called on it all the same. *)
Example Call_after_duplicate_Load :
  fst (Load (fresh echo_path [("echo", 256%N)])) = Returns (Some DuplicateLoad) ∧
  status (snd (Load (fresh echo_path [("echo", 256%N)]))) = PluginStatusNone ∧
  fst (Call "Echo" [hi] (snd (Load (fresh echo_path [("echo", 256%N)])))) =
    Returns [hi; Nil].
Proof. vm_compute. done. Qed.

Lemma Load_keeps_handle_after_open_witness :
  plugin (snd (Load (fresh echo_path [("echo", 256%N)]))) = Some echo_so ∧
  cache (snd (Load (fresh echo_path [("echo", 256%N)]))) =
    cache (fresh echo_path [("echo", 256%N)]) ∧
  (cache (fresh echo_path [("echo", 256%N)]) !! "Echo" = None →
   fst (GetFunc "Echo" (snd (Load (fresh echo_path [("echo", 256%N)])))) =
     (r ← Lookup (Some echo_so) "Echo";
      match r with
      | Fail e => Returns (Fail e)
      | Ok f1 => info ← bind_symbol f1; Returns (Ok info)
      end)).
Proof.
  apply (Load_keeps_handle_after_open
           (fresh echo_path [("echo", 256%N)]) echo_so "Echo").
  - left. reflexivity.
  - vm_compute. reflexivity.
Defined.

Lemma Load_twice_witness :
  Load (snd (Load (fresh echo_path []))) =
    (Returns None, snd (Load (fresh echo_path []))).
Proof. apply (Load_twice (fresh echo_path [])). differ. Defined.

Lemma Unload_twice_witness :
  Unload (snd (Unload loaded)) = (Returns None, snd (Unload loaded)).
Proof. apply (Unload_twice loaded). vm_compute. reflexivity. Defined.

Lemma Reload_short_circuits_witness :
  Reload sticky_loaded =
    (Returns (Some (SymbolNotFound sticky_so "Unload")), snd (Unload sticky_loaded)).
Proof.
  apply (Reload_short_circuits sticky_loaded (SymbolNotFound sticky_so "Unload")).
  vm_compute. reflexivity.
Defined.

Lemma Reload_of_registered_plugin_fails_witness :
  fst (Reload loaded) = Returns (Some DuplicateLoad) ∧
  status (snd (Reload loaded)) = PluginStatusNone ∧
  m (snd (Reload loaded)) = m loaded.
Proof.
  apply (Reload_of_registered_plugin_fails loaded echo_so "echo" 256
           (λ e, Return e)); vm_compute; reflexivity.
Defined.

Lemma Load_registers_witness :
  fst (Load (fresh echo_path [])) = Returns None ∧
  status (snd (Load (fresh echo_path []))) = PluginStatusLoaded ∧
  name (snd (Load (fresh echo_path []))) = "echo" ∧
  version (snd (Load (fresh echo_path []))) = 256%N ∧
  plugin (snd (Load (fresh echo_path []))) = Some echo_so ∧
  m (snd (Load (fresh echo_path []))) =
    OnLoaded (m (fresh echo_path [])) "echo" 256.
Proof.
  apply (Load_registers (fresh echo_path []) echo_so "echo" 256
           (λ e, Return e) None).
  - left. reflexivity.
  - vm_compute. reflexivity.
  - vm_compute. reflexivity.
  - reflexivity.
  - reflexivity.
Defined.

Lemma Load_without_callback_stays_Loading_witness :
  fst (Load (fresh silent_path [])) = Returns None ∧
  status (snd (Load (fresh silent_path []))) = PluginStatusLoading ∧
  name (snd (Load (fresh silent_path []))) = name (fresh silent_path []) ∧
  version (snd (Load (fresh silent_path []))) = version (fresh silent_path []) ∧
  m (snd (Load (fresh silent_path []))) = m (fresh silent_path []) ∧
  Load (snd (Load (fresh silent_path []))) =
    (Returns None, snd (Load (fresh silent_path []))).
Proof.
  apply (Load_without_callback_stays_Loading (fresh silent_path []) silent_so None).
  - left. reflexivity.
  - vm_compute. reflexivity.
  - vm_compute. reflexivity.
Defined.

End OnTheArtifacts.

Section OnMoreArtifacts.
Import Artifacts.
#[local] Existing Instance registry_manager.
#[local] Existing Instance loader.

Ltac differ := let H := fresh in intros H; vm_compute in H; discriminate H.

Lemma GetFunc_of_a_variable_panics_witness :
  fst (GetFunc "Counter" counter_loaded) = Panics "reflect: NumIn of non-func type" ∧
  cache (snd (GetFunc "Counter" counter_loaded)) = cache counter_loaded ∧
  ∀ params, fst (Call "Counter" params counter_loaded) =
            Panics "reflect: NumIn of non-func type".
Proof.
  apply (GetFunc_of_a_variable_panics counter_loaded counter_so "Counter"
           (Unnamed "*int")); vm_compute; reflexivity.
Defined.

Lemma Load_export_of_another_type_panics_witness :
  (∃ reason, fst (Load (NewPlugin oddload_path [])) = Panics reason) ∧
  status (snd (Load (NewPlugin oddload_path []))) = PluginStatusLoading ∧
  plugin (snd (Load (NewPlugin oddload_path []))) = Some oddload_so ∧
  Load (snd (Load (NewPlugin oddload_path []))) =
    (Returns None, snd (Load (NewPlugin oddload_path []))).
Proof.
  apply (Load_export_of_another_type_panics (NewPlugin oddload_path [])
           oddload_so (Var (Unnamed "*int"))).
  - left. reflexivity.
  - vm_compute. reflexivity.
  - vm_compute. reflexivity.
  - intros body. discriminate.
Defined.

Lemma Unload_export_panics_witness :
  (∃ reason, fst (Unload oddunload_loaded) = Panics reason) ∧
  status (snd (Unload oddunload_loaded)) = status oddunload_loaded ∧
  cache (snd (Unload oddunload_loaded)) = ∅.
Proof.
  apply (Unload_export_panics oddunload_loaded (Var (Unnamed "*int")));
    try differ.
  - vm_compute. reflexivity.
  - intros err. discriminate.
Defined.

End OnMoreArtifacts.

Section OnTheFlagService.
#[local] Existing Instance PluginManager.flag_service.

Lemma StartManager_twice_witness :
  PluginManager.StartManager true None =
    (Returns (fst (PluginManager.Run false)), Some (snd (PluginManager.Run false))) ∧
  PluginManager.StartManager false (snd (PluginManager.StartManager true None)) =
    (Returns None, snd (PluginManager.StartManager true None)).
Proof.
  apply (StartManager_twice true false None false).
  - left. reflexivity.
  - reflexivity.
  - reflexivity.
Defined.

Lemma failed_StartManager_drops_the_manager_witness :
  PluginManager.StartManager false (Some false) =
    (Returns (Some PluginManager.bad_options), None) ∧
  fst (PluginManager.GetPlugin "echo"
         (snd (PluginManager.StartManager false (Some false)))) =
    Panics PluginManager.nil_manager ∧
  fst (PluginManager.GetFunc "echo" "Echo"
         (snd (PluginManager.StartManager false (Some false)))) =
    Panics PluginManager.nil_manager ∧
  fst (PluginManager.Call "echo" "Echo" []
         (snd (PluginManager.StartManager false (Some false)))) =
    Panics PluginManager.nil_manager.
Proof.
  apply (failed_StartManager_drops_the_manager false (Some false)
           PluginManager.bad_options "echo" "echo" "Echo" []).
  - right. exists false. split; reflexivity.
  - reflexivity.
Defined.

End OnTheFlagService.
